(** * The lidbox example notebooks: audio augmentation and feature pipeline

    A shallow embedding of the data pipeline of the notebooks
    [common-voice-augmenting] and [common-voice-embeddings]:
    the NumPy helpers [random_filter] and [random_speed_change], their
    [tf.data] wrappers, [batch_extract_features], and the dataset
    builders [pipeline_from_metadata] and [pipeline_from_meta]; and of the
    cells around them: the dict [split2ds], the cache-filling loop,
    [ds_to_embeddings] and the join of the language vectors to the
    metadata, [random_sample] and [target2lang].

    - Scalars are the notebook's floats.  The code is written once over a
      class [Numerics] and run on two instances: IEEE binary64 (Rocq's
      primitive floats, what CPython and NumPy compute) and exact
      rationals (what the formulas mean on paper).
    - Functions of the audio library, of SciPy and of TensorFlow that the
      notebooks only call are operations of the class [AudioLib].
    - Generators ([np_rng], NumPy's global state, TensorFlow's) are
      explicit states of a class [RandomSource].
    - A [tf.data.Dataset] is the action of one full traversal on a
      [World] (cache files, generator states, a log of the Python
      functions invoked); it fails where TensorFlow would raise. *)

From Stdlib Require Import ZArith QArith Qround Lia Lqa Ascii String.
From Stdlib Require Import Floats.PrimFloat Floats.SpecFloat Floats.FloatOps.
From stdpp Require Import gmap strings list sorting.

Open Scope Z_scope.

(** Method chains are written in the order of the source. *)
Notation "ds |> f" := (f ds) (at level 45, left associativity, only parsing).

(** ** Scalar arithmetic *)

Class Numerics := {
  num : Type;
  of_int : Z -> num;            (* int -> float conversion *)
  of_lit : Q -> num;            (* a decimal literal, e.g. [0.9] *)
  fadd : num -> num -> num;
  fsub : num -> num -> num;
  fmul : num -> num -> num;
  fdiv : num -> num -> num;
  to_int : num -> option Z;     (* Python [int(x)]: truncation, raises on inf/nan *)
  to_float32 : num -> num;      (* [astype(np.float32)], [tf.cast(_, tf.float32)] *)
}.

(** *** Exact rationals, with one value for inf/nan *)

Definition xq_lift2 (f : Q -> Q -> Q) (a b : option Q) : option Q :=
  match a, b with
  | Some x, Some y => Some (f x y)
  | _, _ => None
  end.

Definition xq_div (a b : option Q) : option Q :=
  match a, b with
  | Some x, Some y => if Qeq_bool y 0 then None else Some (Qdiv x y)
  | _, _ => None
  end.

Definition Qtrunc (q : Q) : Z :=
  if Qle_bool 0 q then Qfloor q else Qceiling q.

Definition Exact : Numerics := {|
  num := option Q;
  of_int := fun z => Some (inject_Z z);
  of_lit := fun q => Some q;
  fadd := xq_lift2 Qplus;
  fsub := xq_lift2 Qminus;
  fmul := xq_lift2 Qmult;
  fdiv := xq_div;
  to_int := fun a => Qtrunc <$> a;
  to_float32 := fun a => a;
|}.

(** *** IEEE 754 binary64 *)

Definition f64_of_Z (z : Z) : float :=
  SF2Prim (binary_normalize prec emax z 0 false).

Definition f64_of_lit (q : Q) : float :=
  PrimFloat.div (f64_of_Z (Qnum q)) (f64_of_Z (Z.pos (Qden q))).

Definition f64_to_Z (f : float) : option Z :=
  match Prim2SF f with
  | S754_zero _ => Some 0
  | S754_finite s m e =>
      let v := if 0 <=? e then Z.pos m * 2 ^ e else Z.pos m / 2 ^ (- e) in
      Some (if s then - v else v)
  | S754_infinity _ | S754_nan => None
  end.

Definition f64_to_f32 (f : float) : float :=
  match Prim2SF f with
  | S754_finite s m e =>
      SF2Prim (binary_normalize 24 128 (if s then Z.neg m else Z.pos m) e s)
  | _ => f
  end.

Definition Binary64 : Numerics := {|
  num := float;
  of_int := f64_of_Z;
  of_lit := f64_of_lit;
  fadd := PrimFloat.add;
  fsub := PrimFloat.sub;
  fmul := PrimFloat.mul;
  fdiv := PrimFloat.div;
  to_int := f64_to_Z;
  to_float32 := f64_to_f32;
|}.

(** ** Generators *)

Class RandomSource (N : Numerics) := {
  G : Type;
  random : G -> num * G;               (* next double of [0, 1) *)
  standard_normal : G -> num * G;      (* next standard normal deviate *)
  integers : G -> nat -> nat * G;      (* next integer for a bound *)
  permutation : G -> nat -> list nat * G;
  permutation_perm : forall g n, Permutation (permutation g n).1 (seq 0 n);
}.

(** ** The audio library, SciPy and TensorFlow operations the notebooks call *)

Class AudioLib (N : Numerics) := {
  audio_read_mp3 : string -> list num * Z;
  audio_resample : list num -> Z -> Z -> list num;
  audio_peak_normalize : list num -> num -> list num;
  audio_remove_silence : list num -> Z -> list num;
  audio_spectrograms : list num -> Z -> list (list num);
  audio_linear_to_mel : list (list num) -> Z -> list (list num);
  tf_math_log : num -> num;
  tf_math_divide_by_std : list (list num) -> list (list num) -> list (list num);
  (* [scipy.signal.resample(s, n)]: [n] samples, or an exception *)
  scipy_signal_resample : list num -> Z -> option (list num);
  scipy_signal_resample_length : forall s n s',
    scipy_signal_resample s n = Some s' -> Z.of_nat (length s') = n;
  (* peak normalisation scales the samples and keeps their number *)
  audio_peak_normalize_length : forall s d,
    length (audio_peak_normalize s d) = length s;
}.

(** ** Records flowing through the pipeline

    A dataset element is a dict with a fixed set of keys per stage:
    the six metadata columns, then [signal] and [sample_rate] added by
    [read_mp3], then [logmelspec] added by [batch_extract_features]. *)

Record MetaRow := mkMetaRow {
  id : string;
  path : string;
  label : string;
  target : Z;
  split : string;
  is_copy : bool;
}.

Section Pipeline.
Context {N : Numerics} {R : RandomSource N} {L : AudioLib N}.

Record SignalRec := mkSignalRec {
  meta : MetaRow;
  signal : list num;
  sample_rate : Z;
}.

Record FeatRec := mkFeatRec {
  base : SignalRec;
  logmelspec : list (list num);
}.

(** [dict(x, signal=s)] *)
Definition with_signal (x : SignalRec) (s : list num) : SignalRec :=
  {| meta := meta x; signal := s; sample_rate := sample_rate x |}.

(** ** The world a traversal acts on *)

Inductive CacheEntry :=
| SignalEntries (xs : list SignalRec)
| FeatureEntries (xs : list FeatRec).

Record World := mkWorld {
  files : gmap string CacheEntry;   (* cache files by path *)
  np_rng : G;                       (* [np_rng = np.random.default_rng(1)] *)
  global_rng : G;                   (* NumPy's global state, used by pandas *)
  tf_rng : G;                       (* TensorFlow's generator, set by [tf.random.set_seed] *)
  log : list (string * string);     (* (function, utterance id), oldest first *)
}.

Definition M (A : Type) : Type := World -> option (A * World).

Definition ret {A} (a : A) : M A := fun w => Some (a, w).

Definition bind {A B} (m : M A) (k : A -> M B) : M B :=
  fun w => match m w with
           | Some (a, w') => k a w'
           | None => None
           end.

Definition raise {A} : M A := fun _ => None.

Definition lift_option {A} (o : option A) : M A :=
  fun w => match o with Some a => Some (a, w) | None => None end.

Definition set_np_rng (g : G) (w : World) : World :=
  {| files := files w; np_rng := g; global_rng := global_rng w;
     tf_rng := tf_rng w; log := log w |}.

Definition set_global_rng (g : G) (w : World) : World :=
  {| files := files w; np_rng := np_rng w; global_rng := g;
     tf_rng := tf_rng w; log := log w |}.


Definition append_log (evs : list (string * string)) (w : World) : World :=
  {| files := files w; np_rng := np_rng w; global_rng := global_rng w;
     tf_rng := tf_rng w; log := log w ++ evs |}.

Definition set_file (p : string) (e : CacheEntry) (w : World) : World :=
  {| files := <[p := e]> (files w); np_rng := np_rng w;
     global_rng := global_rng w; tf_rng := tf_rng w; log := log w |}.

Definition with_np_rng {A} (f : G -> A * G) : M A :=
  fun w => let '(a, g) := f (np_rng w) in Some (a, set_np_rng g w).

Definition with_global_rng {A} (f : G -> A * G) : M A :=
  fun w => let '(a, g) := f (global_rng w) in Some (a, set_global_rng g w).


Definition emit (fn key : string) : M unit :=
  fun w => Some (tt, append_log [(fn, key)] w).

Definition write_file (p : string) (e : CacheEntry) : M unit :=
  fun w => Some (tt, set_file p e w).

Fixpoint for_each {A B} (f : A -> M B) (xs : list A) : M (list B) :=
  match xs with
  | [] => ret []
  | x :: xs' => bind (f x) (fun y => bind (for_each f xs') (fun ys => ret (y :: ys)))
  end.

(** ** NumPy generator methods *)

(** [Generator.uniform(lo, hi)]: [lo + (hi - lo) * next_double] *)
Definition uniform (lo hi : num) (g : G) : num * G :=
  let '(u, g') := random g in (fadd lo (fmul (fsub hi lo) u), g').

(** [Generator.normal(loc, scale, n)]: [n] deviates [loc + scale * z] *)
Fixpoint normal (loc scale : num) (n : nat) (g : G) : list num * G :=
  match n with
  | O => ([], g)
  | S k =>
      let '(z, g1) := standard_normal g in
      let '(zs, g2) := normal loc scale k g1 in
      (fadd loc (fmul scale z) :: zs, g2)
  end.

(** [DataFrame.sample(frac=1)] on the generator it is given *)
Definition sample_frac_1 {A} (rows : list A) (g : G) : list A * G :=
  let '(p, g') := permutation g (length rows) in
  (omap (fun i => rows !! i) p, g').

(** ** [scipy.signal.lfilter(b, a, x)] for a scalar [a]

    With one denominator coefficient SciPy filters by [np.convolve(b / a, x)]
    cut to the length of [x]; [np.convolve] raises on an empty operand.
    NumPy does not fix the order in which the products of one output
    sample are added; here they are added from the last tap to the first. *)

Fixpoint add_signals (u v : list num) : list num :=
  match u, v with
  | [], _ => v
  | _, [] => u
  | a :: u', b :: v' => fadd a b :: add_signals u' v'
  end.

Fixpoint np_convolve (b x : list num) : list num :=
  match b with
  | [] => []
  | [b0] => map (fmul b0) x
  | b0 :: b' => add_signals (map (fmul b0) x) (of_int 0 :: np_convolve b' x)
  end.

Definition scipy_signal_lfilter (b : list num) (a : num) (x : list num) : option (list num) :=
  match b, x with
  | [], _ | _, [] => None
  | _, _ => Some (take (length x) (np_convolve (map (fun bk => fdiv bk a) b) x))
  end.

(** ** The notebook's NumPy functions *)

Definition random_filter (s : list num) (n : nat) : M (list num * list num) :=
  bind (with_np_rng (normal (of_int 0) (of_int 1) n)) (fun b =>
  bind (lift_option (scipy_signal_lfilter b (of_lit 1) s)) (fun y =>
  ret (map to_float32 y, b))).

(** [new_len = int(len(s) * r / (ratio * r))]; the product [len(s) * r]
    is an integer (int64, which the lengths and rates of audio do not
    overflow), the rest is float arithmetic. *)
Definition new_len (len r : Z) (ratio : num) : option Z :=
  to_int (fdiv (of_int (len * r)) (fmul ratio (of_int r))).

Definition random_speed_change (s : list num) (r : Z) (lo hi : num) : M (list num * num) :=
  bind (with_np_rng (uniform lo hi)) (fun ratio =>
  bind (lift_option (new_len (Z.of_nat (length s)) r ratio)) (fun n =>
  bind (lift_option (scipy_signal_resample s n)) (fun y =>
  ret (map to_float32 y, ratio)))).

(** ** Dataset element functions *)

Definition metadata_to_dataset_input (meta : list MetaRow) : list MetaRow := meta.

Definition read_mp3 (x : MetaRow) : SignalRec :=
  let '(s, r) := audio_read_mp3 (path x) in
  let out_rate := 16000 in
  let s := audio_resample s r out_rate in
  let s := audio_peak_normalize s (of_lit (-3)) in
  let s := audio_remove_silence s out_rate in
  {| meta := x; signal := s; sample_rate := out_rate |}.

Definition random_speed_change_wrapper (x : SignalRec) : M SignalRec :=
  if negb (is_copy (meta x)) then ret x
  else bind (random_speed_change (signal x) (sample_rate x) (of_lit (9 # 10)) (of_lit (11 # 10)))
            (fun '(s, _) => ret (with_signal x s)).

Definition random_filter_wrapper (x : SignalRec) : M SignalRec :=
  bind (random_filter (signal x) 10) (fun '(s, _) =>
  let s := map to_float32 s in
  let s := audio_peak_normalize s (of_lit (-3)) in
  ret (with_signal x s)).

Definition signal_is_not_empty (x : SignalRec) : bool :=
  bool_decide (0 < length (signal x))%nat.


(** ** Feature extraction *)

Definition f32_add (a b : num) : num := to_float32 (fadd (to_float32 a) (to_float32 b)).
Definition f32_sub (a b : num) : num := to_float32 (fsub (to_float32 a) (to_float32 b)).
Definition f32_div (a b : num) : num := to_float32 (fdiv (to_float32 a) (to_float32 b)).

(** [tf.math.log(S + 1e-6)] *)
Definition log_eps (S : list (list num)) : list (list num) :=
  map (map (fun e => tf_math_log (f32_add e (of_lit (1 # 1000000))))) S.

(** [tf.math.reduce_mean] over the time axis, one value per frequency bin *)
Definition reduce_sum_time (X : list (list num)) : list num :=
  match X with
  | [] => []
  | row :: rows => fold_left (zip_with f32_add) rows row
  end.

Definition reduce_mean_time (X : list (list num)) : list num :=
  map (fun v => f32_div v (of_int (Z.of_nat (length X)))) (reduce_sum_time X).

(** Modelled from the spec: [lidbox.features.cmvn] is imported by the
    notebooks and not part of them.  It subtracts, per frequency bin, the
    mean over the time axis of the utterance; with [normalize_variance]
    the result is also divided by the standard deviation. *)
Definition cmvn (X : list (list num)) (normalize_variance : bool) : list (list num) :=
  let mu := reduce_mean_time X in
  let centered := map (fun row => zip_with f32_sub row mu) X in
  if normalize_variance then tf_math_divide_by_std X centered else centered.

(** The argument is a batch; [rates[0]] is the rate of its first element. *)
Definition batch_extract_features (x : list SignalRec) : option (list FeatRec) :=
  match x with
  | [] => None
  | x0 :: _ =>
      let rate := sample_rate x0 in
      Some (map (fun xi =>
        let S := audio_spectrograms (signal xi) rate in
        let S := audio_linear_to_mel S rate in
        let S := log_eps S in
        let S := cmvn S false in
        {| base := xi; logmelspec := S |}) x)
  end.

(** ** [tf.data] *)

Class Keyed (A : Type) := key : A -> string.
#[export] Instance MetaRow_keyed : Keyed MetaRow := id.
#[export] Instance SignalRec_keyed : Keyed SignalRec := fun x => id (meta x).
#[export] Instance FeatRec_keyed : Keyed FeatRec := fun x => id (meta (base x)).
#[export] Instance batch_keyed {A} `{Keyed A} : Keyed (list A) :=
  fun b => String.concat "," (map key b).

Class Cacheable (A : Type) := {
  to_entry : list A -> CacheEntry;
  of_entry : CacheEntry -> option (list A);
}.
#[export] Instance SignalRec_cacheable : Cacheable SignalRec := {|
  to_entry := SignalEntries;
  of_entry := fun e => match e with SignalEntries xs => Some xs | _ => None end;
|}.
#[export] Instance FeatRec_cacheable : Cacheable FeatRec := {|
  to_entry := FeatureEntries;
  of_entry := fun e => match e with FeatureEntries xs => Some xs | _ => None end;
|}.

(** A dataset is the action of one full traversal: the elements it
    yields, in order, and what yielding them does to the world.  A stage
    is run over the whole sequence before the next one, which is how far
    the invocations of one [map] run ahead of the next when the elements
    are prefetched and mapped with [num_parallel_calls]. *)
Definition Dataset (A : Type) : Type := M (list A).

Definition from_tensor_slices {A} (rows : list A) : Dataset A := ret rows.

(** [ds.map(f, num_parallel_calls)], results delivered in input order;
    here the function is invoked on the elements from first to last
    ([ds_map_scheduled] below takes the order of the invocations as an
    argument).  An exception in [f] ends the traversal. *)
Definition ds_map {A B} `{Keyed A} (fn : string) (f : A -> M B) (ds : Dataset A) : Dataset B :=
  bind ds (for_each (fun x => bind (emit fn (key x)) (fun _ => f x))).

Definition ds_filter {A} (p : A -> bool) (ds : Dataset A) : Dataset A :=
  bind ds (fun xs => ret (List.filter p xs)).

(** Prefetching changes when elements are computed, not which. *)
Definition ds_prefetch {A} (buffer_size : nat) (ds : Dataset A) : Dataset A := ds.

(** [ds.cache(path)]: the first full traversal writes the file, every
    later one reads it and leaves the upstream dataset alone. *)
Definition ds_cache {A} `{Cacheable A} (p : string) (ds : Dataset A) : Dataset A :=
  fun w => match files w !! p with
           | Some e => lift_option (of_entry e) w
           | None => bind ds (fun xs => bind (write_file p (to_entry xs)) (fun _ => ret xs)) w
           end.

Fixpoint chunks {A} (fuel size : nat) (xs : list A) : list (list A) :=
  match fuel, xs with
  | O, _ | _, [] => []
  | S fuel', _ => take size xs :: chunks fuel' size (drop size xs)
  end.

Definition ds_batch {A} (batch_size : nat) (ds : Dataset A) : Dataset (list A) :=
  match batch_size with
  | O => raise
  | _ => bind ds (fun xs => ret (chunks (length xs) batch_size xs))
  end.

Definition ds_unbatch {A} (ds : Dataset (list A)) : Dataset A :=
  bind ds (fun bs => ret (concat bs)).




Definition os_path_join (a b : string) : string := a +:+ "/" +:+ b.

End Pipeline.

(** ** The notebook [common-voice-augmenting] *)

Section Augmenting.
Context {N : Numerics} {R : RandomSource N} {L : AudioLib N}.

Definition workdir : string := "/data/exp/cv4-augment".
Definition cachedir : string := os_path_join workdir "cache".

(** Building the pipeline runs Python ([data.sample]); the dataset it
    returns is traversed later, any number of times. *)
Definition pipeline_from_metadata (data : list MetaRow) (split : string)
  : M (Dataset FeatRec) :=
  bind (if String.eqb split "train"
        then with_global_rng (sample_frac_1 data)
        else ret data) (fun data =>
  let ds :=
    from_tensor_slices (metadata_to_dataset_input data)
    |> ds_map "read_mp3" (fun x => ret (read_mp3 x))
    |> ds_filter signal_is_not_empty
    |> ds_prefetch 1000
    |> ds_cache (os_path_join (os_path_join cachedir "data") split)
    |> ds_prefetch 1000 in
  let ds :=
    if String.eqb split "train"
    then ds
         |> ds_map "random_speed_change_wrapper" random_speed_change_wrapper
         |> ds_map "random_filter_wrapper" random_filter_wrapper
    else ds in
  ret (ds
       |> ds_batch 1
       |> ds_map "batch_extract_features" (fun x => lift_option (batch_extract_features x))
       |> ds_unbatch)).

Definition as_model_input (x : FeatRec) : list (list num) * Z :=
  (logmelspec x, target (meta (base x))).

#[export] Instance model_input_keyed : Keyed (list (list num) * Z) := fun _ => "".


Definition dev_ds (split2ds_dev : Dataset FeatRec) : Dataset (list (list num) * Z) :=
  split2ds_dev |> ds_map "as_model_input" (fun x => ret (as_model_input x)).

End Augmenting.

(** ** The notebook [common-voice-embeddings] *)

Module Embeddings.
Section Notebook.
Context {N : Numerics} {R : RandomSource N} {L : AudioLib N}.

Definition workdir : string := "/data/exp/cv4-embed".
Definition cachedir : string := os_path_join workdir "cache".

Definition scipy_filter (s : list num) (n : nat) : M (list num * list num) :=
  bind (with_np_rng (normal (of_int 0) (of_int 1) n)) (fun b =>
  bind (lift_option (scipy_signal_lfilter b (of_lit 1) s)) (fun y =>
  ret (map to_float32 y, b))).

Definition random_filter (x : SignalRec) : M SignalRec :=
  bind (scipy_filter (signal x) 10) (fun '(s, _) =>
  let s := map to_float32 s in
  let s := audio_peak_normalize s (of_lit (-3)) in
  ret (with_signal x s)).

(** Modelled from the spec: [lidbox.data.steps.random_signal_speed_change]
    is imported by the notebook and not part of it.  It changes the speed
    of the records carrying the flag by a ratio drawn uniformly from
    [[min, max]] and passes the other records on. *)
Definition random_signal_speed_change (ds : Dataset SignalRec) (min max : num)
    (flag : SignalRec -> bool) : Dataset SignalRec :=
  ds |> ds_map "random_signal_speed_change" (fun x =>
    if negb (flag x) then ret x
    else bind (random_speed_change (signal x) (sample_rate x) min max)
              (fun '(s, _) => ret (with_signal x s))).

Definition random_speed_change (ds : Dataset SignalRec) : Dataset SignalRec :=
  random_signal_speed_change ds (of_lit (9 # 10)) (of_lit (11 # 10))
    (fun x => is_copy (meta x)).

Definition pipeline_from_meta (data : list MetaRow) (split : string)
  : M (Dataset FeatRec) :=
  bind (if String.eqb split "train"
        then with_np_rng (sample_frac_1 data)
        else ret data) (fun data =>
  let ds :=
    from_tensor_slices (metadata_to_dataset_input data)
    |> ds_map "read_mp3" (fun x => ret (read_mp3 x)) in
  if String.eqb split "test" then
    ret (ds
         |> ds_batch 1
         |> ds_map "batch_extract_features" (fun x => lift_option (batch_extract_features x))
         |> ds_unbatch
         |> ds_cache (os_path_join (os_path_join cachedir "data") split)
         |> ds_prefetch 1000)
  else
    ret (ds
         |> ds_cache (os_path_join (os_path_join cachedir "data") split)
         |> ds_prefetch 1000
         |> random_speed_change
         |> ds_map "random_filter" random_filter
         |> ds_batch 1
         |> ds_map "batch_extract_features" (fun x => lift_option (batch_extract_features x))
         |> ds_unbatch)).

End Notebook.
End Embeddings.

(** ** Closed forms used in the statements *)

Section ClosedForms.
Context {N : Numerics} {R : RandomSource N} {L : AudioLib N}.

(** The next [n] standard normal deviates of a generator. *)
Fixpoint standard_normals (n : nat) (g : G) : list num * G :=
  match n with
  | O => ([], g)
  | S k =>
      let '(z, g1) := standard_normal g in
      let '(zs, g2) := standard_normals k g1 in
      (z :: zs, g2)
  end.

(** Output sample [n] of the FIR filter [b] on [x] started at rest:
    [b0 * x[n] + (b1 * x[n-1] + (... ))], the taps that would read before
    the first sample contributing zero. *)
Fixpoint fir_at (b x : list num) (n : nat) : option num :=
  match b with
  | [] => None
  | [b0] => fmul b0 <$> x !! n
  | b0 :: b' =>
      (fun xn => fadd (fmul b0 xn)
                   (match n with
                    | O => of_int 0
                    | S m => default (of_int 0) (fir_at b' x m)
                    end)) <$> x !! n
  end.

(** What [batch_extract_features] makes of the one element of a batch. *)
Definition extract_one (x : SignalRec) : FeatRec :=
  {| base := x;
     logmelspec :=
       cmvn (log_eps (audio_linear_to_mel
                        (audio_spectrograms (signal x) (sample_rate x))
                        (sample_rate x))) false |}.

(** The log entries of one stage over a sequence of elements. *)
Definition events {A} `{Keyed A} (fn : string) (xs : list A) : list (string * string) :=
  map (fun x => (fn, key x)) xs.

(** What [read_mp3] followed by the filter [signal_is_not_empty] leaves. *)
Definition conditioned (rows : list MetaRow) : list SignalRec :=
  List.filter signal_is_not_empty (map read_mp3 rows).

(** The two augmentation stages of the train split, on given elements. *)
Definition augment_train (xs : list SignalRec) : Dataset SignalRec :=
  from_tensor_slices xs
  |> ds_map "random_speed_change_wrapper" random_speed_change_wrapper
  |> ds_map "random_filter_wrapper" random_filter_wrapper.

(** The cached part of [pipeline_from_metadata]. *)
Definition cached_signals (rows : list MetaRow) (p : string) : Dataset SignalRec :=
  from_tensor_slices (metadata_to_dataset_input rows)
  |> ds_map "read_mp3" (fun x => ret (read_mp3 x))
  |> ds_filter signal_is_not_empty
  |> ds_prefetch 1000
  |> ds_cache p
  |> ds_prefetch 1000.

(** The file a split is cached in by [pipeline_from_metadata]. *)
Definition split_file (split : string) : string :=
  os_path_join (os_path_join cachedir "data") split.

(** The feature stage shared by all pipelines. *)
Definition extract_features (ds : Dataset SignalRec) : Dataset FeatRec :=
  ds
  |> ds_batch 1
  |> ds_map "batch_extract_features" (fun x => lift_option (batch_extract_features x))
  |> ds_unbatch.

(** What [pipeline_from_metadata] does with the elements its cache yields. *)
Definition downstream (split : string) (xs : list SignalRec) : Dataset FeatRec :=
  if String.eqb split "train"
  then extract_features (augment_train xs)
  else extract_features (from_tensor_slices xs).

Definition downstream_events (split : string) (xs : list SignalRec) : list (string * string) :=
  (if String.eqb split "train"
   then events "random_speed_change_wrapper" xs ++ events "random_filter_wrapper" xs
   else [])
  ++ events "batch_extract_features" xs.

(** The same for [pipeline_from_meta] of the embeddings notebook. *)
Definition emb_split_file (split : string) : string :=
  os_path_join (os_path_join Embeddings.cachedir "data") split.

Definition emb_downstream (xs : list SignalRec) : Dataset FeatRec :=
  extract_features
    (from_tensor_slices xs
     |> Embeddings.random_speed_change
     |> ds_map "random_filter" Embeddings.random_filter).

Definition emb_downstream_events (xs : list SignalRec) : list (string * string) :=
  events "random_signal_speed_change" xs ++ events "random_filter" xs
  ++ events "batch_extract_features" xs.

(** ** Parallel invocations

    With [num_parallel_calls] the runtime invokes the function on several
    elements at once and delivers the results in input order.  The
    invocations reach the shared generator one after the other, in an
    order the scheduler decides: [order] lists the positions in the order
    in which they are invoked (a permutation of the positions). *)

Definition index_of (j : nat) (order : list nat) : option nat :=
  fst <$> list_find (fun i => i = j) order.

Definition deliver_in_order {B} (order : list nat) (ys : list B) : list B :=
  omap (fun j => index_of j order ≫= (fun k => ys !! k)) (seq 0 (length ys)).

Definition ds_map_scheduled {A B} `{Keyed A} (order : list nat) (fn : string)
    (f : A -> M B) (ds : Dataset A) : Dataset B :=
  bind ds (fun xs =>
  bind (for_each (fun x => bind (emit fn (key x)) (fun _ => f x))
          (omap (fun i => xs !! i) order)) (fun ys =>
  ret (deliver_in_order order ys))).

Definition augment_train_scheduled (order : list nat) (xs : list SignalRec)
  : Dataset SignalRec :=
  from_tensor_slices xs
  |> ds_map_scheduled order "random_speed_change_wrapper" random_speed_change_wrapper
  |> ds_map "random_filter_wrapper" random_filter_wrapper.

(** Build a pipeline and traverse its dataset once. *)
Definition traverse_once {A} (build : M (Dataset A)) : M (list A) :=
  bind build (fun ds => ds).

(** Build a pipeline, then traverse its dataset twice; the result is the
    two outputs and the world between the traversals. *)
Definition traverse_twice {A} (build : M (Dataset A)) : M (list A * list A * World) :=
  bind build (fun ds =>
  bind ds (fun out1 => fun w1 =>
  bind ds (fun out2 => ret (out1, out2, w1)) w1)).

End ClosedForms.

(** ** The cells around the pipelines

    The notebooks build one dataset per split, traverse each once to fill
    its cache, and the embeddings notebook then collects one vector per
    utterance into the metadata table. *)

(** [meta.split.unique()]: the values in the order of their first appearance *)
Fixpoint unique (xs : list string) : list string :=
  match xs with
  | [] => []
  | x :: xs' => x :: List.filter (fun y => negb (String.eqb y x)) (unique xs')
  end.

(** [meta[meta["split"]==split]] *)
Definition select_split (meta : list MetaRow) (sp : string) : list MetaRow :=
  List.filter (fun r => String.eqb (split r) sp) meta.

(** The trained x-vector model cut at its [segment1] layer,
    [xvec_extractor]: a batch of feature matrices in, one vector per
    element of the batch out. *)
Class Extractor (N : Numerics) := {
  xvec_extractor : list (list (list num)) -> list (list num);
  xvec_extractor_length : forall S, length (xvec_extractor S) = length S;
}.

(** [Generator.choice(np.arange(n), size=k, replace=False)]: [k] distinct
    positions below [n], or an exception when [n] has fewer than [k]. *)
Class ChoiceSource (N : Numerics) (R : RandomSource N) := {
  choice : G -> nat -> nat -> option (list nat * G);
  choice_Some : forall g n k idx g',
    choice g n k = Some (idx, g') ->
    length idx = k /\ NoDup idx /\ Forall (fun i => (i < n)%nat) idx;
  choice_None : forall g n k, choice g n k = None <-> (n < k)%nat;
}.

Section Cells.
Context {N : Numerics} {R : RandomSource N} {L : AudioLib N}.

(** The dict comprehension [split2ds] of [common-voice-augmenting]; the
    dict is its items in insertion order. *)
Definition split2ds (meta : list MetaRow) : M (list (string * Dataset FeatRec)) :=
  for_each (fun sp => bind (pipeline_from_metadata (select_split meta sp) sp)
                           (fun ds => ret (sp, ds)))
           (unique (map split meta)).



End Cells.

(** ** The language vectors of [common-voice-embeddings] *)

Module EmbeddingVectors.
Section Notebook.
Context {N : Numerics} {R : RandomSource N} {L : AudioLib N}.
Context {E : Extractor N} {C : ChoiceSource N R}.

Definition split2ds (meta : list MetaRow) : M (list (string * Dataset FeatRec)) :=
  for_each (fun sp => bind (Embeddings.pipeline_from_meta (select_split meta sp) sp)
                           (fun ds => ret (sp, ds)))
           (unique (map split meta)).

Record EmbRec := mkEmbRec {
  feat : FeatRec;
  embedding : list num;
}.

#[export] Instance EmbRec_keyed : Keyed EmbRec := fun x => id (meta (base (feat x))).

(** The argument is a batch; the extractor returns one vector for each of
    its elements. *)
Definition batch_extract_embeddings (x : list FeatRec) : list EmbRec :=
  zip_with mkEmbRec x (xvec_extractor (map logmelspec x)).

(** A data frame with the columns [id] and [embedding], in row order. *)
Definition Table : Type := list (string * list num).

(** [df.set_index("id", drop=True, verify_integrity=True)] raises when an
    id occurs twice. *)
Definition set_index_verify (df : Table) : M Table :=
  if bool_decide (NoDup (map fst df)) then ret df else raise.

(** The ids are encoded as UTF-8 by [tf.constant] and decoded back by
    [id.decode("utf-8")]. *)
Definition ds_to_embeddings (ds : Dataset FeatRec) : M Table :=
  let to_pair := fun x : EmbRec => (id (meta (base (feat x))), embedding x) in
  let ds :=
    ds
    |> ds_batch 1
    |> ds_map "batch_extract_embeddings" (fun x => ret (batch_extract_embeddings x))
    |> ds_unbatch
    |> ds_map "to_pair" (fun x => ret (to_pair x)) in
  bind ds (fun pairs =>
  let ids := map fst pairs in
  let embeddings := map (fun p => map to_float32 p.2) pairs in
  set_index_verify (zip ids embeddings)).








(** [np_rng.choice] advances [np_rng]. *)
Definition with_np_rng_choice (n k : nat) : M (list nat) :=
  fun w => match choice (np_rng w) n k with
           | Some (idx, g) => Some (idx, set_np_rng g w)
           | None => None
           end.

(** [X[sample_idx]] and [y[sample_idx]] raise on a position out of range;
    a negative size is refused by [choice]. *)
Definition random_sample {A B} (X : list A) (y : list B) (sample_size_ratio : num)
  : M (list A * list B) :=
  let n := length X in
  bind (lift_option (to_int (fmul sample_size_ratio (of_int (Z.of_nat n))))) (fun sample_size =>
  if sample_size <? 0 then raise else
  bind (with_np_rng_choice n (Z.to_nat sample_size)) (fun sample_idx =>
  bind (lift_option (mapM (fun i => X !! i) sample_idx)) (fun X' =>
  bind (lift_option (mapM (fun i => y !! i) sample_idx)) (fun y' =>
  ret (X', y'))))).

End Notebook.
End EmbeddingVectors.

(** ** Closed forms of the traversals *)

Section TraversalForms.
Context {N : Numerics} {R : RandomSource N} {L : AudioLib N}.
Context {E : Extractor N}.




(** The vector the extractor returns for one utterance, as a batch of one. *)
Definition embedding_of (f : FeatRec) : list num :=
  default [] (head (xvec_extractor [logmelspec f])).

(** The row [ds_to_embeddings] makes of one record. *)
Definition table_row (f : FeatRec) : string * list num :=
  (id (meta (base f)), map to_float32 (embedding_of f)).

End TraversalForms.

Section BuildOrder.
Context {N : Numerics} {R : RandomSource N}.


End BuildOrder.

Section Labels.

(** [target2lang = {t: l for l, t in lang2target.items()}] of
    [pca_3d_scatterplot_by_label]; the dict [lang2target] is its items in
    insertion order, and a later item replaces an earlier one with the
    same target. *)
Definition target2lang (lang2target : list (string * Z)) : gmap Z string :=
  foldl (fun m lt => <[snd lt := fst lt]> m) ∅ lang2target.

(** [[target2lang[t] for t in targets]] raises on a target that is not a
    key. *)
Definition langs_of_targets (lang2target : list (string * Z)) (targets : list Z)
  : option (list string) :=
  mapM (fun t => target2lang lang2target !! t) targets.

End Labels.

Section ScheduledReads.
Context {N : Numerics} {R : RandomSource N} {L : AudioLib N}.

(** The cached part of [pipeline_from_metadata] with the invocations of
    [read_mp3] made in the order [order]. *)
Definition cached_signals_scheduled (order : list nat) (rows : list MetaRow) (p : string)
  : Dataset SignalRec :=
  from_tensor_slices (metadata_to_dataset_input rows)
  |> ds_map_scheduled order "read_mp3" (fun x => ret (read_mp3 x))
  |> ds_filter signal_is_not_empty
  |> ds_prefetch 1000
  |> ds_cache p
  |> ds_prefetch 1000.

End ScheduledReads.

(** ** A small executable instance

    Used to run the pipelines on concrete inputs.  Draws are read off a
    tape; a file is decoded to one sample per character of its path (the
    character code minus 100, so that the letter d is silence);
    conditioning removes the silent samples. *)

Module Reference.

Definition shift_draw (tape : list Z) : Z * list Z :=
  match tape with
  | [] => (0, [])
  | z :: tape' => (z, tape')
  end.

Definition rotation (k n : nat) : list nat :=
  drop (k mod n)%nat (seq 0 n) ++ take (k mod n)%nat (seq 0 n).

Lemma rotation_perm k n : Permutation (rotation k n) (seq 0 n).
Proof.
  unfold rotation.
  rewrite Permutation_app_comm. by rewrite take_drop.
Qed.

Definition tape_random (g : list Z) : @num Exact * list Z :=
  let '(z, g') := shift_draw g in (Some ((z mod 1000) # 1000), g').

Definition tape_normal (g : list Z) : @num Exact * list Z :=
  let '(z, g') := shift_draw g in (Some (z # 100), g').

Definition tape_integers (g : list Z) (bound : nat) : nat * list Z :=
  let '(z, g') := shift_draw g in (Z.to_nat z, g').

Definition tape_permutation (g : list Z) (n : nat) : list nat * list Z :=
  let '(z, g') := shift_draw g in (rotation (Z.to_nat z) n, g').

Lemma tape_permutation_perm g n : Permutation (tape_permutation g n).1 (seq 0 n).
Proof. destruct g; apply rotation_perm. Qed.

#[export] Instance tape : RandomSource Exact := {|
  G := list Z;
  random := tape_random;
  standard_normal := tape_normal;
  integers := tape_integers;
  permutation := tape_permutation;
  permutation_perm := tape_permutation_perm;
|}.

Definition decode (p : string) : list (@num Exact) :=
  map (fun c => Some (inject_Z (Z.of_nat (nat_of_ascii c) - 100))) (String.list_ascii_of_string p).

Definition is_silent (v : @num Exact) : bool :=
  match v with
  | Some q => Qeq_bool q 0
  | None => false
  end.

Definition resize (s : list (@num Exact)) (n : Z) : option (list (@num Exact)) :=
  if n <=? 0 then None
  else Some (take (Z.to_nat n) (s ++ replicate (Z.to_nat n) (Some 0%Q))).

Lemma resize_length s n s' : resize s n = Some s' -> Z.of_nat (length s') = n.
Proof.
  unfold resize. destruct (Z.leb_spec n 0) as [|Hn]; [done|].
  intros [= <-]. rewrite length_take, length_app, length_replicate. lia.
Qed.

#[export] Instance lib : AudioLib Exact := {|
  audio_read_mp3 := fun p => (decode p, 44100);
  audio_resample := fun s _ _ => s;
  audio_peak_normalize := fun s _ => s;
  audio_remove_silence := fun s _ => List.filter (fun v => negb (is_silent v)) s;
  audio_spectrograms := fun s _ => map (fun v => [v; v]) s;
  audio_linear_to_mel := fun S _ => S;
  tf_math_log := fun v => v;
  tf_math_divide_by_std := fun _ S => S;
  scipy_signal_resample := resize;
  scipy_signal_resample_length := resize_length;
  audio_peak_normalize_length := fun _ _ => eq_refl;
|}.

Definition row (i p sp : string) (c : bool) : MetaRow :=
  {| id := i; path := p; label := "et"; target := 0; split := sp; is_copy := c |}.

Definition world (np glob tf : @G Exact tape) : @World Exact tape :=
  {| files := ∅; np_rng := np; global_rng := glob; tf_rng := tf; log := [] |}.

(** Three clips per split; the clip of utterance b is silence. *)
Definition rows_of (sp : string) : list MetaRow :=
  [row "a" "abc" sp true; row "b" "ddd" sp false; row "c" "xyz" sp false].

Definition utt (i : string) (c : bool) (s : list Z) : @SignalRec Exact :=
  {| meta := row i i "train" c; signal := map (@of_int Exact) s;
     sample_rate := 16000 |}.

(** The draws of a run seeded once: two doubles, then normal deviates. *)
Definition seed : @G Exact tape :=
  [100; 900; 1; 2; 3; 4; 5; 6; 7; 8; 9; 10; 11; 12; 13; 14; 15; 16; 17; 18; 19; 20;
   21; 22; 23; 24; 25; 26; 27; 28; 29; 30].

(** Two oversampled copies, as cached, and their metadata rows. *)
Definition copies : list (@SignalRec Exact) :=
  [utt "a" true [1; 2; 3]; utt "c" true [4; 5; 6]].

Definition copy_rows : list MetaRow :=
  [row "a" "abc" "train" true; row "c" "xyz" "train" true].

Definition ids (out : list (@FeatRec Exact)) : list string :=
  map (fun f => id (meta (base f))) out.

Definition lengths (xs : list (@SignalRec Exact)) : list (string * nat) :=
  map (fun x => (id (meta x), length (signal x))) xs.

End Reference.

(** The vector of an utterance is the first frame of its feature matrix;
    a sample without replacement is the head of a rotation. *)

Module ReferenceVectors.
Import Reference.

Definition first_frames (S : list (list (list (@num Exact)))) : list (list (@num Exact)) :=
  map (fun M => default [] (head M)) S.

Lemma first_frames_length S : length (first_frames S) = length S.
Proof. apply length_map. Qed.

#[export] Instance extractor : Extractor Exact := {|
  xvec_extractor := first_frames;
  xvec_extractor_length := first_frames_length;
|}.

Definition tape_choice (g : @G Exact tape) (n k : nat) : option (list nat * @G Exact tape) :=
  if (k <=? n)%nat
  then let '(z, g') := shift_draw g in Some (take k (rotation (Z.to_nat z) n), g')
  else None.

Lemma tape_choice_Some g n k idx g' :
  tape_choice g n k = Some (idx, g') ->
  length idx = k /\ NoDup idx /\ Forall (fun i => (i < n)%nat) idx.
Proof.
  unfold tape_choice. destruct (Nat.leb_spec k n) as [Hk|]; [|done].
  destruct (shift_draw g) as [z g0]. intros [= <- <-].
  pose proof (rotation_perm (Z.to_nat z) n) as Hperm.
  assert (Hlen : length (rotation (Z.to_nat z) n) = n).
  { by rewrite Hperm, length_seq. }
  split; [rewrite length_take; lia|]. split.
  - eapply sublist_NoDup; [|apply sublist_take].
    rewrite Hperm. apply NoDup_seq.
  - apply Forall_take. rewrite Hperm. apply Forall_seq. intros; lia.
Qed.

Lemma tape_choice_None g n k : tape_choice g n k = None <-> (n < k)%nat.
Proof.
  unfold tape_choice. destruct (Nat.leb_spec k n) as [Hk|Hk].
  - destruct (shift_draw g) as [z g0]. split; [done|lia].
  - done.
Qed.

#[export] Instance chooser : ChoiceSource Exact tape := {|
  choice := tape_choice;
  choice_Some := tape_choice_Some;
  choice_None := tape_choice_None;
|}.


End ReferenceVectors.

(** * Properties *)

(** ** Truncation and the length chosen by the speed change *)

Lemma Qtrunc_comp (a b : Q) : Qeq a b -> Qtrunc a = Qtrunc b.
Proof.
  intros Hab. unfold Qtrunc.
  assert (Hle : Qle_bool 0 a = Qle_bool 0 b).
  { apply eq_true_iff_eq. rewrite !Qle_bool_iff. by rewrite Hab. }
  rewrite Hle. destruct (Qle_bool 0 b).
  - by apply Qfloor_comp.
  - by apply Qceiling_comp.
Qed.

Lemma Qtrunc_nonneg (q : Q) : (0 <= q)%Q -> Qtrunc q = Qfloor q.
Proof.
  intros Hq. unfold Qtrunc.
  apply Qle_bool_iff in Hq. by rewrite Hq.
Qed.

Lemma Qfloor_div_pos (n : Z) (q : Q) :
  (0 < q)%Q -> Qfloor (inject_Z n / q) = (n * Z.pos (Qden q)) / Qnum q.
Proof.
  destruct q as [a d]. unfold Qlt. simpl. intros Ha.
  assert (Hpos : 0 < a) by lia.
  destruct a as [|a|a]; try lia.
  unfold Qdiv, Qinv, Qmult, Qfloor. simpl.
  by rewrite Pos.mul_1_l.
Qed.

Lemma new_len_exact (len r : Z) (q : Q) :
  0 < r -> (0 < q)%Q ->
  new_len (N := Exact) len r (Some q) = Some (Qtrunc (inject_Z len / q)).
Proof.
  intros Hr Hq. unfold new_len. simpl.
  assert (Hr' : (0 < inject_Z r)%Q) by (unfold Qlt; simpl; lia).
  assert (Hne : ~ Qeq (q * inject_Z r) 0).
  { intros Heq. assert (0 < q * inject_Z r)%Q by (by apply Qmult_lt_0_compat).
    rewrite Heq in H. by apply Qlt_irrefl in H. }
  destruct (Qeq_bool (q * inject_Z r) 0) eqn:Hb.
  { by apply Qeq_bool_eq in Hb. }
  simpl. f_equal. apply Qtrunc_comp.
  rewrite inject_Z_mult. field.
  split; apply Qnot_eq_sym, Qlt_not_eq; assumption.
Qed.

(** C10 (as amended).  In exact arithmetic the sample rate cancels from
    [int(len(s) * r / (ratio * r))]: for every signal, every positive rate
    and every positive ratio the length chosen by the speed change is the
    integer truncation of [len(s) / ratio], the same for every rate. *)
Theorem new_len_rate_cancels_exact (s : list (@num Exact)) (r r' : Z) (q : Q) :
  0 < r -> 0 < r' -> (0 < q)%Q ->
  new_len (N := Exact) (Z.of_nat (length s)) r (Some q)
    = @to_int Exact (@fdiv Exact (@of_int Exact (Z.of_nat (length s))) (Some q))
  /\ new_len (N := Exact) (Z.of_nat (length s)) r (Some q)
    = new_len (N := Exact) (Z.of_nat (length s)) r' (Some q).
Proof.
  intros Hr Hr' Hq.
  rewrite !new_len_exact by assumption.
  split; [|done]. simpl.
  destruct (Qeq_bool q 0) eqn:Hb; [|done].
  apply Qeq_bool_eq in Hb. rewrite Hb in Hq. by apply Qlt_irrefl in Hq.
Qed.

Lemma new_len_rate_cancels_exact_witness :
  new_len (N := Exact) (Z.of_nat (length (replicate 11 (Some 1%Q)))) 16000 (Some (11 # 10))
    = @to_int Exact (@fdiv Exact (@of_int Exact (Z.of_nat (length (replicate 11 (Some 1%Q))))) (Some (11 # 10)))
  /\ new_len (N := Exact) (Z.of_nat (length (replicate 11 (Some 1%Q)))) 16000 (Some (11 # 10))
    = new_len (N := Exact) (Z.of_nat (length (replicate 11 (Some 1%Q)))) 44100 (Some (11 # 10)).
Proof.
  apply (new_len_rate_cancels_exact (replicate 11 (Some 1%Q)) 16000 44100 (11 # 10));
    [lia | lia | reflexivity].
Defined.

(** C10 (as stated) fails on the floats the code computes with: for a
    signal of 11 samples and the ratio 1.1, the rate 16000 gives length 10
    and the rate 44100 gives length 9; for 33 samples at rate 16000 the
    length is 30 while [int(33 / 1.1)] is 29. *)
Lemma new_len_rate_matters_binary64 :
  new_len (N := Binary64) (Z.of_nat (length (replicate 11 PrimFloat.one)))
      16000 (@of_lit Binary64 (11 # 10)) = Some 10
  /\ new_len (N := Binary64) (Z.of_nat (length (replicate 11 PrimFloat.one)))
      44100 (@of_lit Binary64 (11 # 10)) = Some 9
  /\ new_len (N := Binary64) (Z.of_nat (length (replicate 33 PrimFloat.one)))
      16000 (@of_lit Binary64 (11 # 10)) = Some 30
  /\ @to_int Binary64
       (@fdiv Binary64 (@of_int Binary64 (Z.of_nat (length (replicate 33 PrimFloat.one))))
              (@of_lit Binary64 (11 # 10)))
     = Some 29.
Proof. vm_compute. repeat split. Qed.

(** ** The NumPy functions and their wrappers *)

Section Wrappers.
Context {N : Numerics} {R : RandomSource N} {L : AudioLib N}.

Lemma normal_length loc scale n g : length (normal loc scale n g).1 = n.
Proof.
  revert g. induction n as [|n IH]; intros g; simpl; [done|].
  destruct (standard_normal g) as [z g1]. specialize (IH g1).
  destruct (normal loc scale n g1) as [zs g2]. simpl in *. by rewrite IH.
Qed.

Lemma normal_standard_normals loc scale n g :
  normal loc scale n g =
    (map (fun z => fadd loc (fmul scale z)) (standard_normals n g).1,
     (standard_normals n g).2).
Proof.
  revert g. induction n as [|n IH]; intros g; simpl; [done|].
  destruct (standard_normal g) as [z g1]. rewrite (IH g1).
  by destruct (standard_normals n g1) as [zs g2].
Qed.

Lemma add_signals_length u v :
  length (add_signals u v) = (length u `max` length v)%nat.
Proof.
  revert v. induction u as [|a u IH]; intros [|b v]; simpl; auto.
Qed.

Lemma add_signals_lookup u v n a c :
  u !! n = Some a -> v !! n = Some c -> add_signals u v !! n = Some (fadd a c).
Proof.
  revert v n. induction u as [|a0 u IH]; intros [|c0 v] [|n]; simpl; try done.
  - by intros [= ->] [= ->].
  - apply IH.
Qed.

Lemma fir_at_is_Some b x n :
  b <> [] -> (n < length x)%nat -> is_Some (fir_at b x n).
Proof.
  intros Hb Hn. destruct (lookup_lt_is_Some_2 x n Hn) as [xn Hx].
  destruct b as [|b0 [|b1 b']]; [done| |]; simpl; rewrite Hx; simpl; eauto.
Qed.

Lemma np_convolve_lookup b x n :
  b <> [] -> (n < length x)%nat -> np_convolve b x !! n = fir_at b x n.
Proof.
  revert n. induction b as [|b0 b' IH]; intros n Hb Hn; [done|].
  destruct b' as [|b1 b''].
  - simpl. by rewrite list_lookup_fmap.
  - destruct (lookup_lt_is_Some_2 x n Hn) as [xn Hx].
    change (np_convolve (b0 :: b1 :: b'') x)
      with (add_signals (map (fmul b0) x) (of_int 0 :: np_convolve (b1 :: b'') x)).
    change (fir_at (b0 :: b1 :: b'') x n)
      with ((fun xn => fadd (fmul b0 xn)
                        (match n with
                         | O => of_int 0
                         | S m => default (of_int 0) (fir_at (b1 :: b'') x m)
                         end)) <$> x !! n).
    rewrite Hx. cbv beta iota delta [fmap option_fmap option_map].
    destruct n as [|m].
    + apply add_signals_lookup; [|done].
      by rewrite list_lookup_fmap, Hx.
    + assert (Hm : (m < length x)%nat) by lia.
      destruct (fir_at_is_Some (b1 :: b'') x m) as [v Hv]; [done|done|].
      apply add_signals_lookup.
      * by rewrite list_lookup_fmap, Hx.
      * change ((of_int 0 :: np_convolve (b1 :: b'') x) !! S m)
          with (np_convolve (b1 :: b'') x !! m).
        rewrite IH by done. by rewrite Hv.
Qed.

Lemma np_convolve_length b x :
  b <> [] -> (length x <= length (np_convolve b x))%nat.
Proof.
  induction b as [|b0 b' IH]; intros Hb; [done|].
  destruct b' as [|b1 b''].
  - simpl. by rewrite length_map.
  - change (np_convolve (b0 :: b1 :: b'') x)
      with (add_signals (map (fmul b0) x) (of_int 0 :: np_convolve (b1 :: b'') x)).
    rewrite add_signals_length, length_map. lia.
Qed.

Lemma scipy_signal_lfilter_fir b a x :
  b <> [] -> x <> [] ->
  exists y, scipy_signal_lfilter b a x = Some y
    /\ length y = length x
    /\ forall n, y !! n = fir_at (map (fun bk => fdiv bk a) b) x n.
Proof.
  intros Hb Hx.
  assert (Hb' : map (fun bk => fdiv bk a) b <> []) by (by destruct b).
  exists (take (length x) (np_convolve (map (fun bk => fdiv bk a) b) x)).
  split; [by destruct b, x|]. split.
  - rewrite length_take. pose proof (np_convolve_length _ x Hb'). lia.
  - intros n. destruct (decide (n < length x)%nat) as [Hn|Hn].
    + rewrite lookup_take_lt by done. by apply np_convolve_lookup.
    + rewrite lookup_take_ge by lia.
      assert (Hnone : x !! n = None) by (apply lookup_ge_None; lia).
      destruct (map (fun bk => fdiv bk a) b) as [|c0 [|c1 c']]; [done| |];
        simpl; by rewrite Hnone.
Qed.

Lemma random_filter_wrapper_run x (w : World) :
  let b := map (fun z => fadd (of_int 0) (fmul (of_int 1) z))
               (standard_normals 10 (np_rng w)).1 in
  length b = 10%nat
  /\ random_filter_wrapper x w =
       match scipy_signal_lfilter b (of_lit 1) (signal x) with
       | Some y =>
           Some (with_signal x
                   (audio_peak_normalize (map to_float32 (map to_float32 y)) (of_lit (-3))),
                 set_np_rng (standard_normals 10 (np_rng w)).2 w)
       | None => None
       end.
Proof.
  intros b.
  assert (Hb : normal (of_int 0) (of_int 1) 10 (np_rng w)
               = (b, (standard_normals 10 (np_rng w)).2))
    by apply normal_standard_normals.
  split.
  - pose proof (normal_length (of_int 0) (of_int 1) 10 (np_rng w)) as H.
    by rewrite Hb in H.
  - unfold random_filter_wrapper, random_filter, bind, with_np_rng, lift_option, ret.
    rewrite Hb. by destruct (scipy_signal_lfilter b (of_lit 1) (signal x)).
Qed.

End Wrappers.

Section WrapperClaims.
Context {N : Numerics} {R : RandomSource N} {L : AudioLib N}.

(** C3.  The speed change is applied exactly to the records flagged
    [is_copy]: a record with [is_copy = false] is returned unchanged and
    no draw is made; for a record with [is_copy = true] one ratio is drawn
    from [np_rng] (which advances) and the signal is replaced by its
    resampling, which has the length chosen for that ratio. *)
Theorem random_speed_change_wrapper_copies_only (x : SignalRec) (w : World) :
  (is_copy (meta x) = false -> random_speed_change_wrapper x w = Some (x, w))
  /\ (is_copy (meta x) = true ->
      random_speed_change_wrapper x w =
        match new_len (Z.of_nat (length (signal x))) (sample_rate x)
                (uniform (of_lit (9 # 10)) (of_lit (11 # 10)) (np_rng w)).1 with
        | Some n =>
            match scipy_signal_resample (signal x) n with
            | Some y =>
                Some (with_signal x (map to_float32 y),
                      set_np_rng (uniform (of_lit (9 # 10)) (of_lit (11 # 10)) (np_rng w)).2 w)
            | None => None
            end
        | None => None
        end)
  /\ (is_copy (meta x) = true ->
      forall x' w', random_speed_change_wrapper x w = Some (x', w') ->
      new_len (Z.of_nat (length (signal x))) (sample_rate x)
        (uniform (of_lit (9 # 10)) (of_lit (11 # 10)) (np_rng w)).1
      = Some (Z.of_nat (length (signal x')))).
Proof.
  assert (Hrun : is_copy (meta x) = true ->
      random_speed_change_wrapper x w =
        match new_len (Z.of_nat (length (signal x))) (sample_rate x)
                (uniform (of_lit (9 # 10)) (of_lit (11 # 10)) (np_rng w)).1 with
        | Some n =>
            match scipy_signal_resample (signal x) n with
            | Some y =>
                Some (with_signal x (map to_float32 y),
                      set_np_rng (uniform (of_lit (9 # 10)) (of_lit (11 # 10)) (np_rng w)).2 w)
            | None => None
            end
        | None => None
        end).
  { unfold random_speed_change_wrapper. intros ->. simpl.
    unfold random_speed_change, bind, with_np_rng, lift_option, ret.
    destruct (uniform _ _ (np_rng w)) as [ratio g']. simpl.
    destruct (new_len _ _ ratio) as [n|]; [|done].
    by destruct (scipy_signal_resample (signal x) n). }
  split; [|split; [exact Hrun|]].
  - unfold random_speed_change_wrapper. by intros ->.
  - intros Hc x' w'. rewrite (Hrun Hc).
    destruct (new_len _ _ _) as [n|]; [|done].
    destruct (scipy_signal_resample (signal x) n) as [y|] eqn:Hy; [|done].
    intros [= <- _]. simpl. rewrite length_map.
    by rewrite (scipy_signal_resample_length _ _ _ Hy).
Qed.

(** C9.  Whatever the speed-change wrapper or the filter wrapper returns
    differs from its input in the [signal] field only: [id], [path],
    [label], [target], [split], [is_copy] and [sample_rate] are those of
    the input. *)
Theorem augmentation_wrappers_frame (x x' : SignalRec) (w w' : World) :
  random_speed_change_wrapper x w = Some (x', w')
  \/ random_filter_wrapper x w = Some (x', w') ->
  id (meta x') = id (meta x)
  /\ path (meta x') = path (meta x)
  /\ label (meta x') = label (meta x)
  /\ target (meta x') = target (meta x)
  /\ split (meta x') = split (meta x)
  /\ is_copy (meta x') = is_copy (meta x)
  /\ sample_rate x' = sample_rate x.
Proof.
  assert (Hframe : forall s, meta (with_signal x s) = meta x
                          /\ sample_rate (with_signal x s) = sample_rate x) by done.
  assert (Hgoal : meta x' = meta x /\ sample_rate x' = sample_rate x ->
    id (meta x') = id (meta x) /\ path (meta x') = path (meta x)
    /\ label (meta x') = label (meta x) /\ target (meta x') = target (meta x)
    /\ split (meta x') = split (meta x) /\ is_copy (meta x') = is_copy (meta x)
    /\ sample_rate x' = sample_rate x).
  { intros [-> ->]. done. }
  intros [H|H]; apply Hgoal.
  - unfold random_speed_change_wrapper in H.
    destruct (is_copy (meta x)); simpl in H.
    + unfold bind in H.
      destruct (random_speed_change _ _ _ _ w) as [[[s ratio] w1]|]; [|done].
      injection H as <- _. apply Hframe.
    + by injection H as <- _.
  - unfold random_filter_wrapper, bind in H.
    destruct (random_filter _ _ w) as [[[s b] w1]|]; [|done].
    injection H as <- _. apply Hframe.
Qed.


End WrapperClaims.

Section SpeedChangeExact.
Context {R : RandomSource Exact} {L : AudioLib Exact}.



End SpeedChangeExact.

(** In binary64 both ends of the range are reached: the draw 0 gives the
    double 0.9, and the largest draw below 1, [(2^53 - 1) / 2^53], gives
    the double 1.1. *)
Lemma uniform_reaches_both_ends {R : RandomSource Binary64} (g g' : G) :
  (random g = (@of_lit Binary64 0, g') ->
   uniform (@of_lit Binary64 (9 # 10)) (@of_lit Binary64 (11 # 10)) g
   = (@of_lit Binary64 (9 # 10), g'))
  /\ (random g = (@of_lit Binary64 (9007199254740991 # 9007199254740992), g') ->
      uniform (@of_lit Binary64 (9 # 10)) (@of_lit Binary64 (11 # 10)) g
      = (@of_lit Binary64 (11 # 10), g')).
Proof.
  split; intros H; unfold uniform; rewrite H; f_equal; vm_compute; reflexivity.
Qed.

(** ** Feature extraction *)

Section FeatureExtraction.
Context {N : Numerics} {R : RandomSource N} {L : AudioLib N}.

Lemma fold_zip_with_lookup (g : num -> num -> num) rows row f v cs :
  row !! f = Some v ->
  Forall2 (fun r c => r !! f = Some c) rows cs ->
  fold_left (zip_with g) rows row !! f = Some (fold_left g cs v).
Proof.
  intros Hv Hcols. revert row v Hv.
  induction Hcols as [|r c rows cs Hr _ IH]; intros row v Hv; simpl; [done|].
  apply IH. rewrite lookup_zip_with, Hv. simpl. by rewrite Hr.
Qed.

Lemma reduce_mean_time_lookup row rows f v cs :
  row !! f = Some v ->
  Forall2 (fun r c => r !! f = Some c) rows cs ->
  reduce_mean_time (row :: rows) !! f
    = Some (f32_div (fold_left f32_add cs v) (of_int (Z.of_nat (S (length rows))))).
Proof.
  intros Hv Hcols. unfold reduce_mean_time, reduce_sum_time.
  rewrite list_lookup_fmap.
  by rewrite (fold_zip_with_lookup f32_add rows row f v cs Hv Hcols).
Qed.

End FeatureExtraction.

(** ** Traversals *)

Section Traversals.
Context {N : Numerics} {R : RandomSource N} {L : AudioLib N}.

Lemma append_log_nil (w : World) : append_log [] w = w.
Proof. destruct w. unfold append_log. simpl. by rewrite app_nil_r. Qed.

Lemma append_log_app evs1 evs2 (w : World) :
  append_log evs2 (append_log evs1 w) = append_log (evs1 ++ evs2) w.
Proof. unfold append_log. simpl. by rewrite app_assoc. Qed.

Lemma for_each_pure {A B} `{Keyed A} (fn : string) (f : A -> B) xs (w : World) :
  for_each (fun x => bind (emit fn (key x)) (fun _ => ret (f x))) xs w
  = Some (map f xs, append_log (events fn xs) w).
Proof.
  revert w. induction xs as [|x xs IH]; intros w.
  - simpl. unfold ret. by rewrite append_log_nil.
  - simpl. unfold bind at 1 2. unfold emit at 1. unfold ret at 1.
    unfold bind at 1. rewrite IH. unfold ret. by rewrite append_log_app.
Qed.

Lemma for_each_option {A B} `{Keyed A} (fn : string) (f : A -> option B) (g : A -> B)
    xs (w : World) :
  Forall (fun x => f x = Some (g x)) xs ->
  for_each (fun x => bind (emit fn (key x)) (fun _ => lift_option (f x))) xs w
  = Some (map g xs, append_log (events fn xs) w).
Proof.
  intros Hf. revert w. induction Hf as [|x xs Hx _ IH]; intros w.
  - simpl. unfold ret. by rewrite append_log_nil.
  - simpl. unfold bind at 1 2. unfold emit at 1. unfold lift_option at 1.
    rewrite Hx. unfold bind at 1. rewrite IH. unfold ret. by rewrite append_log_app.
Qed.

Lemma chunks_one {A} (xs : list A) : chunks (length xs) 1 xs = map (fun x => [x]) xs.
Proof. induction xs as [|x xs IH]; simpl; [done|]. by rewrite drop_0, IH. Qed.

Lemma extract_features_traversal (ds : Dataset SignalRec) (w : World) :
  extract_features ds w =
    match ds w with
    | Some (xs, w1) =>
        Some (map extract_one xs, append_log (events "batch_extract_features" xs) w1)
    | None => None
    end.
Proof.
  unfold extract_features, ds_unbatch, ds_map, ds_batch.
  unfold bind at 1 2 3. destruct (ds w) as [[xs w1]|]; [|done].
  unfold ret at 1. rewrite chunks_one.
  rewrite (for_each_option "batch_extract_features" batch_extract_features
             (fun b => map extract_one b)).
  - unfold ret. f_equal. f_equal.
    + induction xs as [|x xs IH]; simpl; [done|]. by rewrite IH.
    + f_equal. unfold events. rewrite map_map. apply map_ext. intros x.
      unfold key, batch_keyed. simpl. done.
  - apply Forall_forall. intros b [x [-> _]]%list_elem_of_fmap. done.
Qed.

(** C6.  [batch_extract_features] computes, in this order, the
    spectrogram of the signal, its mel projection, the logarithm of every
    mel energy plus [1e-6], and CMVN with variance normalisation switched
    off: every entry has the mean of its frequency bin over the frames of
    the utterance subtracted.  With the switch on, the centred matrix is
    also divided by the deviation.  The feature stage of the pipelines
    does this to every element that reaches it, one batch of one element
    at a time. *)
Theorem batch_extract_features_order (x : SignalRec) :
  batch_extract_features [x] = Some [extract_one x]
  /\ base (extract_one x) = x
  /\ logmelspec (extract_one x)
     = cmvn (log_eps (audio_linear_to_mel
                        (audio_spectrograms (signal x) (sample_rate x))
                        (sample_rate x))) false
  /\ (forall S t f row e, S !! t = Some row -> row !! f = Some e ->
        log_eps S !! t ≫= (fun r => r !! f)
        = Some (tf_math_log (f32_add e (of_lit (1 # 1000000)))))
  /\ (forall row rows f v cs t rt a,
        row !! f = Some v ->
        Forall2 (fun r c => r !! f = Some c) rows cs ->
        (row :: rows) !! t = Some rt -> rt !! f = Some a ->
        cmvn (row :: rows) false !! t ≫= (fun r => r !! f)
        = Some (f32_sub a
                  (f32_div (fold_left f32_add cs v)
                           (of_int (Z.of_nat (length (row :: rows)))))))
  /\ (forall X, cmvn X true = tf_math_divide_by_std X (cmvn X false))
  /\ (forall (ds : Dataset SignalRec) (w : World),
        extract_features ds w =
          match ds w with
          | Some (xs, w1) =>
              Some (map extract_one xs,
                    append_log (events "batch_extract_features" xs) w1)
          | None => None
          end).
Proof.
  split; [done|]. split; [done|]. split; [done|].
  split; [|split; [|split; [done|apply extract_features_traversal]]].
  - intros S t f row e Ht Hf. unfold log_eps.
    rewrite list_lookup_fmap, Ht. simpl.
    by rewrite list_lookup_fmap, Hf.
  - intros row rows f v cs t rt a Hv Hcols Ht Ha.
    unfold cmvn. rewrite list_lookup_fmap, Ht. simpl.
    rewrite lookup_zip_with, Ha. simpl.
    by rewrite (reduce_mean_time_lookup row rows f v cs Hv Hcols).
Qed.

Lemma cached_signals_traversal rows p (w : World) :
  cached_signals rows p w =
    match files w !! p with
    | Some (SignalEntries xs) => Some (xs, w)
    | Some (FeatureEntries _) => None
    | None =>
        Some (conditioned rows,
              set_file p (SignalEntries (conditioned rows))
                (append_log (events "read_mp3" rows) w))
    end.
Proof.
  unfold cached_signals, ds_prefetch, ds_cache.
  destruct (files w !! p) as [[xs|fs]|]; [done|done|].
  unfold ds_filter, ds_map, from_tensor_slices, metadata_to_dataset_input.
  unfold bind at 1 2 3. unfold ret at 1.
  rewrite (for_each_pure "read_mp3" read_mp3). done.
Qed.

Lemma pipeline_from_metadata_other rows split (w0 : World) :
  split <> "train" ->
  exists ds, pipeline_from_metadata rows split w0 = Some (ds, w0)
    /\ forall w, ds w = extract_features (cached_signals rows (split_file split)) w.
Proof.
  intros Hsplit. apply String.eqb_neq in Hsplit.
  unfold pipeline_from_metadata. rewrite Hsplit.
  unfold bind at 1. unfold ret at 1. unfold ret at 1.
  eexists. split; [reflexivity|]. done.
Qed.

Lemma pipeline_from_metadata_train rows (w0 : World) :
  exists ds, pipeline_from_metadata rows "train" w0
             = Some (ds, set_global_rng (sample_frac_1 rows (global_rng w0)).2 w0)
    /\ forall w, ds w =
         extract_features
           (bind (cached_signals (sample_frac_1 rows (global_rng w0)).1 (split_file "train"))
                 augment_train) w.
Proof.
  unfold pipeline_from_metadata.
  change (String.eqb "train" "train") with true. cbv iota.
  unfold bind at 1. unfold with_global_rng.
  destruct (sample_frac_1 rows (global_rng w0)) as [rows' g]. simpl.
  unfold ret at 1.
  eexists. split; [reflexivity|].
  intros w.
  change (extract_features
            (ds_map "random_filter_wrapper" random_filter_wrapper
               (ds_map "random_speed_change_wrapper" random_speed_change_wrapper
                  (cached_signals rows' (split_file "train")))) w
          = extract_features
              (bind (cached_signals rows' (split_file "train")) augment_train) w).
  rewrite !extract_features_traversal.
  unfold augment_train, ds_map, from_tensor_slices, bind, ret.
  by destruct (cached_signals rows' (split_file "train") w) as [[xs w1]|].
Qed.

Lemma set_np_rng_idem g1 g2 evs (w : World) :
  set_np_rng g2 (append_log evs (set_np_rng g1 w)) = set_np_rng g2 (append_log evs w).
Proof. done. Qed.

Lemma set_np_rng_self (w : World) : w = set_np_rng (np_rng w) w.
Proof. by destruct w. Qed.

Lemma for_each_stage {A B} `{Keyed A} (fn : string) (f : A -> M B) (P : A -> B -> Prop) :
  (forall x w y w', f x w = Some (y, w') -> w' = set_np_rng (np_rng w') w /\ P x y) ->
  forall xs w ys w',
    for_each (fun x => bind (emit fn (key x)) (fun _ => f x)) xs w = Some (ys, w') ->
    w' = set_np_rng (np_rng w') (append_log (events fn xs) w) /\ Forall2 P xs ys.
Proof.
  intros Hf. induction xs as [|x xs IH]; intros w ys w' Hrun.
  - injection Hrun as <- <-. split; [|constructor].
    rewrite append_log_nil. apply set_np_rng_self.
  - simpl in Hrun. unfold bind at 1 2 in Hrun. unfold emit at 1 in Hrun.
    destruct (f x (append_log [(fn, key x)] w)) as [[y w1]|] eqn:Hx; [|done].
    unfold bind at 1 in Hrun.
    destruct (for_each _ xs w1) as [[ys' w2]|] eqn:Hxs; [|done].
    injection Hrun as <- <-.
    destruct (Hf _ _ _ _ Hx) as [Hw1 HP].
    destruct (IH _ _ _ Hxs) as [Hw2 HPs].
    split; [|by constructor].
    rewrite Hw2 at 1. rewrite Hw1 at 1.
    rewrite set_np_rng_idem, append_log_app. done.
Qed.

Lemma random_speed_change_wrapper_effect x (w : World) y w' :
  random_speed_change_wrapper x w = Some (y, w') ->
  w' = set_np_rng (np_rng w') w
  /\ (meta y = meta x /\ sample_rate y = sample_rate x
      /\ (is_copy (meta x) = false -> signal y = signal x)).
Proof.
  unfold random_speed_change_wrapper.
  destruct (is_copy (meta x)) eqn:Hc; simpl.
  - unfold bind at 1.
    destruct (random_speed_change _ _ _ _ w) as [[[s ratio] w1]|] eqn:Hs; [|done].
    intros [= <- <-]. split; [|done].
    unfold random_speed_change, bind, with_np_rng, lift_option, ret in Hs.
    destruct (uniform _ _ (np_rng w)) as [q g].
    destruct (new_len _ _ q); [|done].
    destruct (scipy_signal_resample _ _); [|done].
    by injection Hs as <- <- <-.
  - intros [= <- <-]. split; [apply set_np_rng_self|done].
Qed.

Lemma random_filter_wrapper_effect x (w : World) y w' :
  random_filter_wrapper x w = Some (y, w') ->
  w' = set_np_rng (np_rng w') w
  /\ (meta y = meta x /\ sample_rate y = sample_rate x
      /\ length (signal y) = length (signal x) /\ signal x <> []).
Proof.
  intros Hrun.
  pose proof (random_filter_wrapper_run x w) as (Hlen & Heq).
  rewrite Heq in Hrun. clear Heq.
  set (b := map _ (standard_normals 10 (np_rng w)).1) in *.
  destruct (scipy_signal_lfilter b (of_lit 1) (signal x)) as [y0|] eqn:Hy0; [|done].
  injection Hrun as <- <-. split; [done|]. split; [done|]. split; [done|].
  assert (Hx : signal x <> []).
  { intros Hnil. rewrite Hnil in Hy0. by destruct b. }
  split; [|done].
  simpl. rewrite audio_peak_normalize_length, !length_map.
  assert (Hb : b <> []) by (intros Hnil; by rewrite Hnil in Hlen).
  destruct (scipy_signal_lfilter_fir b (of_lit 1) (signal x) Hb Hx) as (y1 & Hy1 & Hl & _).
  congruence.
Qed.

Lemma events_same_keys {A} `{Keyed A} (fn : string) (xs ys : list A) :
  Forall2 (fun x y => key y = key x) xs ys -> events fn ys = events fn xs.
Proof. induction 1 as [|x y xs ys Hk _ IH]; simpl; [done|]. by rewrite Hk, IH. Qed.

Lemma augment_train_effect xs (w : World) ys w' :
  augment_train xs w = Some (ys, w') ->
  w' = set_np_rng (np_rng w')
         (append_log (events "random_speed_change_wrapper" xs
                      ++ events "random_filter_wrapper" xs) w)
  /\ Forall2 (fun x y => meta y = meta x /\ sample_rate y = sample_rate x
                /\ signal y <> []
                /\ (is_copy (meta x) = false -> length (signal y) = length (signal x)))
       xs ys.
Proof.
  unfold augment_train, ds_map, from_tensor_slices. unfold bind at 1 2. unfold ret at 1.
  destruct (for_each _ xs w) as [[zs w1]|] eqn:Hspeed; [|done].
  intros Hfilter.
  apply (for_each_stage _ _ _ random_speed_change_wrapper_effect) in Hspeed
    as [Hw1 Hzs].
  apply (for_each_stage _ _ _ random_filter_wrapper_effect) in Hfilter
    as [Hw' Hys].
  split.
  - rewrite Hw' at 1. rewrite Hw1 at 1.
    rewrite set_np_rng_idem, append_log_app. f_equal. f_equal. f_equal.
    apply events_same_keys.
    eapply Forall2_impl; [exact Hzs|]. intros x z (Hm & _).
    unfold key, SignalRec_keyed. by rewrite Hm.
  - eapply Forall2_trans; [|exact Hzs|exact Hys].
    intros x z y (Hm1 & Hr1 & Hs1) (Hm2 & Hr2 & Hl2 & Hne).
    split; [congruence|]. split; [congruence|]. split.
    + intros Hnil. rewrite Hnil in Hl2. by destruct (signal z).
    + intros Hc. rewrite Hl2, Hs1; done.
Qed.

End Traversals.

(** ** The cache boundary of [pipeline_from_metadata] *)

Section AugmentingPipeline.
Context {N : Numerics} {R : RandomSource N} {L : AudioLib N}.

Lemma omap_lookup_seq {A} (l : list A) j n :
  (j + n <= length l)%nat ->
  omap (fun i => l !! i) (seq j n) = take n (drop j l).
Proof.
  revert j. induction n as [|n IH]; intros j Hj; simpl; [done|].
  destruct (lookup_lt_is_Some_2 l j) as [x Hx]; [lia|].
  rewrite Hx, IH by lia.
  by rewrite (drop_S l x j Hx).
Qed.

Lemma sample_frac_1_perm {A} (rows : list A) (g : G) :
  (sample_frac_1 rows g).1 ≡ₚ rows.
Proof.
  unfold sample_frac_1.
  pose proof (permutation_perm g (length rows)) as Hp.
  destruct (permutation g (length rows)) as [p g']. simpl in *.
  rewrite Hp, omap_lookup_seq by lia.
  by rewrite drop_0, firstn_all.
Qed.

Lemma signal_is_not_empty_true (x : SignalRec) :
  signal_is_not_empty x = true <-> signal x <> [].
Proof.
  unfold signal_is_not_empty. rewrite bool_decide_eq_true.
  destruct (signal x); simpl; split; intros; try done; lia.
Qed.

Lemma elem_of_conditioned (x : SignalRec) rows :
  x ∈ conditioned rows <-> (exists r, r ∈ rows /\ x = read_mp3 r) /\ signal x <> [].
Proof.
  unfold conditioned.
  rewrite list_elem_of_In, filter_In, <- list_elem_of_In, signal_is_not_empty_true.
  rewrite list_elem_of_fmap.
  split; intros [(r & Hr1 & Hr2) Hs]; split; eauto.
Qed.

Lemma pipeline_from_metadata_traversal rows split (w0 : World) :
  let rows' := if String.eqb split "train"
               then (sample_frac_1 rows (global_rng w0)).1 else rows in
  exists ds,
    pipeline_from_metadata rows split w0
    = Some (ds, if String.eqb split "train"
                then set_global_rng (sample_frac_1 rows (global_rng w0)).2 w0
                else w0)
    /\ forall w, ds w =
         match files w !! split_file split with
         | Some (SignalEntries xs) => downstream split xs w
         | Some (FeatureEntries _) => None
         | None =>
             downstream split (conditioned rows')
               (set_file (split_file split) (SignalEntries (conditioned rows'))
                  (append_log (events "read_mp3" rows') w))
         end.
Proof.
  intros rows'. subst rows'. unfold downstream.
  destruct (String.eqb split "train") eqn:Hsplit.
  - apply String.eqb_eq in Hsplit as ->.
    destruct (pipeline_from_metadata_train rows w0) as (ds & Hds & Hrun).
    exists ds. split; [done|]. intros w. rewrite Hrun.
    rewrite !extract_features_traversal. unfold bind at 1.
    rewrite cached_signals_traversal.
    destruct (files w !! split_file "train") as [[xs|fs]|]; try done;
      by rewrite extract_features_traversal.
  - apply String.eqb_neq in Hsplit.
    destruct (pipeline_from_metadata_other rows split w0 Hsplit) as (ds & Hds & Hrun).
    exists ds. split; [done|]. intros w. rewrite Hrun.
    rewrite !extract_features_traversal.
    rewrite cached_signals_traversal.
    destruct (files w !! split_file split) as [[xs|fs]|]; try done;
      by rewrite extract_features_traversal.
Qed.

Lemma downstream_effect split xs (w : World) out w' :
  downstream split xs w = Some (out, w') ->
  exists ys, out = map extract_one ys
    /\ Forall2 (fun x y => meta y = meta x /\ sample_rate y = sample_rate x
                  /\ (split <> "train" \/ is_copy (meta x) = false ->
                      length (signal y) = length (signal x))
                  /\ (split <> "train" -> y = x)
                  /\ (split = "train" -> signal y <> [])) xs ys
    /\ w' = set_np_rng (np_rng w') (append_log (downstream_events split xs) w).
Proof.
  unfold downstream, downstream_events.
  destruct (String.eqb split "train") eqn:Hsplit.
  - apply String.eqb_eq in Hsplit as ->.
    rewrite extract_features_traversal.
    destruct (augment_train xs w) as [[ys w1]|] eqn:Haug; [|done].
    intros [= <- <-]. exists ys. split; [done|].
    apply augment_train_effect in Haug as [Hw1 Hys]. split.
    + eapply Forall2_impl; [exact Hys|]. intros x y (Hm & Hr & Hne & Hl).
      split; [done|]. split; [done|]. split; [|done].
      intros [Hsplit|Hc]; [done|auto].
    + rewrite Hw1 at 1. simpl.
      replace (events "batch_extract_features" ys) with (events "batch_extract_features" xs).
      * unfold set_np_rng, append_log. simpl. by rewrite <- !app_assoc.
      * symmetry. apply events_same_keys.
        eapply Forall2_impl; [exact Hys|]. intros x y (Hm & _).
        unfold key, SignalRec_keyed. by rewrite Hm.
  - rewrite extract_features_traversal. unfold from_tensor_slices, ret.
    intros [= <- <-]. exists xs. split; [done|]. split.
    + apply Forall_Forall2_diag, Forall_forall. intros x _.
      apply String.eqb_neq in Hsplit. by repeat split.
    + simpl. by destruct w.
Qed.

End AugmentingPipeline.

(** ** The shuffle buffer *)

Section Shuffle.
Context {N : Numerics} {R : RandomSource N}.







End Shuffle.

(** ** Claims about [pipeline_from_metadata] *)

Section AugmentingClaims.
Context {N : Numerics} {R : RandomSource N} {L : AudioLib N}.

Lemma build_rows_perm (rows : list MetaRow) split (w0 : World) :
  (if String.eqb split "train" then (sample_frac_1 rows (global_rng w0)).1 else rows) ≡ₚ rows.
Proof. destruct (String.eqb split "train"); [apply sample_frac_1_perm|done]. Qed.

Lemma downstream_cache_file split xs (w : World) out w' p e :
  downstream split xs (set_file p e w) = Some (out, w') -> files w' !! p = Some e.
Proof.
  intros (ys & _ & _ & ->)%downstream_effect. simpl. apply lookup_insert_eq.
Qed.

Lemma downstream_other split xs (w : World) :
  split <> "train" ->
  downstream split xs w
  = Some (map extract_one xs, append_log (events "batch_extract_features" xs) w).
Proof.
  intros Hsplit%String.eqb_neq. unfold downstream. rewrite Hsplit.
  by rewrite extract_features_traversal.
Qed.

Lemma downstream_signals_not_empty split xs (w : World) out w' :
  Forall (fun x => signal x <> []) xs ->
  downstream split xs w = Some (out, w') ->
  Forall (fun f => signal (base f) <> []) out.
Proof.
  intros Hxs (ys & -> & Hys & _)%downstream_effect.
  apply Forall_fmap. simpl.
  eapply Forall2_Forall_r; [exact Hys|].
  eapply Forall_impl; [exact Hxs|]. simpl.
  intros x Hx y (_ & _ & _ & Hsame & Htrain).
  destruct (decide (split = "train")) as [Hsplit|Hsplit]; [by apply Htrain|].
  by rewrite (Hsame Hsplit).
Qed.

(** C2 (as amended).  In [pipeline_from_metadata], for every utterance of
    every split, a record whose conditioned signal is empty is filtered
    out before the cache: the first traversal caches exactly the
    conditioned records with a non-empty signal, and every signal that
    reaches feature extraction, on the first traversal and on every read
    of that cache, is non-empty. *)
Theorem empty_signals_filtered_before_cache rows split (w0 : World) :
  exists ds w1 rows',
    pipeline_from_metadata rows split w0 = Some (ds, w1)
    /\ files w1 = files w0
    /\ rows' ≡ₚ rows
    /\ (forall r, r ∈ rows ->
          read_mp3 r ∈ conditioned rows' <-> signal (read_mp3 r) <> [])
    /\ Forall (fun x => signal x <> []) (conditioned rows')
    /\ (forall w out w',
          files w !! split_file split = None -> ds w = Some (out, w') ->
          files w' !! split_file split = Some (SignalEntries (conditioned rows')))
    /\ (forall w out w',
          files w !! split_file split = None
          \/ files w !! split_file split = Some (SignalEntries (conditioned rows')) ->
          ds w = Some (out, w') ->
          Forall (fun f => signal (base f) <> []) out)
    /\ (split <> "train" -> forall w,
          files w !! split_file split = None
          \/ files w !! split_file split = Some (SignalEntries (conditioned rows')) ->
          is_Some (ds w)).
Proof.
  destruct (pipeline_from_metadata_traversal rows split w0) as (ds & Hds & Hrun).
  pose proof (build_rows_perm rows split w0) as Hperm.
  set (rows' := if String.eqb split "train"
                then (sample_frac_1 rows (global_rng w0)).1 else rows) in *.
  assert (Hne : Forall (fun x => signal x <> []) (conditioned rows')).
  { apply Forall_forall. by intros x [_ Hx]%elem_of_conditioned. }
  eexists ds, _, rows'. split; [exact Hds|].
  split; [by destruct (String.eqb split "train")|]. split; [exact Hperm|].
  split; [|split; [exact Hne|split; [|split]]].
  - intros r Hr. rewrite elem_of_conditioned. split; [by intros [_ ?]|].
    intros Hs. split; [|done]. exists r. split; [|done]. by rewrite Hperm.
  - intros w out w' Hmiss. rewrite Hrun, Hmiss. apply downstream_cache_file.
  - intros w out w' [Hfile|Hfile]; rewrite Hrun, Hfile;
      by apply downstream_signals_not_empty.
  - intros Hsplit w [Hfile|Hfile]; rewrite Hrun, Hfile;
      by rewrite downstream_other.
Qed.

Lemma meta_read_mp3 (r : MetaRow) : meta (read_mp3 r) = r.
Proof. unfold read_mp3. by destruct (audio_read_mp3 (path r)). Qed.





End AugmentingClaims.

(** ** The cache boundary of [pipeline_from_meta] *)

Section EmbeddingsPipeline.
Context {N : Numerics} {R : RandomSource N} {L : AudioLib N}.

Lemma pipeline_from_meta_traversal rows split (w0 : World) :
  let rows' := if String.eqb split "train"
               then (sample_frac_1 rows (np_rng w0)).1 else rows in
  let xs := map read_mp3 rows' in
  exists ds,
    Embeddings.pipeline_from_meta rows split w0
    = Some (ds, if String.eqb split "train"
                then set_np_rng (sample_frac_1 rows (np_rng w0)).2 w0
                else w0)
    /\ forall w, ds w =
         if String.eqb split "test" then
           match files w !! emb_split_file split with
           | Some (FeatureEntries fs) => Some (fs, w)
           | Some (SignalEntries _) => None
           | None =>
               Some (map extract_one xs,
                     set_file (emb_split_file split) (FeatureEntries (map extract_one xs))
                       (append_log (events "read_mp3" rows'
                                    ++ events "batch_extract_features" xs) w))
           end
         else
           match files w !! emb_split_file split with
           | Some (SignalEntries ys) => emb_downstream ys w
           | Some (FeatureEntries _) => None
           | None =>
               emb_downstream xs
                 (set_file (emb_split_file split) (SignalEntries xs)
                    (append_log (events "read_mp3" rows') w))
           end.
Proof.
  intros rows' xs.
  assert (Hread : forall w : World,
    ds_map "read_mp3" (fun x => ret (read_mp3 x))
      (from_tensor_slices (metadata_to_dataset_input rows')) w
    = Some (xs, append_log (events "read_mp3" rows') w)).
  { intros w. unfold ds_map, from_tensor_slices, metadata_to_dataset_input.
    unfold bind at 1. unfold ret at 1.
    by rewrite (for_each_pure "read_mp3" read_mp3). }
  unfold Embeddings.pipeline_from_meta. unfold bind at 1.
  assert (Hbuild :
    (if String.eqb split "train"
     then with_np_rng (sample_frac_1 rows)
     else ret rows) w0
    = Some (rows', if String.eqb split "train"
                   then set_np_rng (sample_frac_1 rows (np_rng w0)).2 w0
                   else w0)).
  { subst rows'. destruct (String.eqb split "train"); [|done].
    unfold with_np_rng. by destruct (sample_frac_1 rows (np_rng w0)). }
  rewrite Hbuild. fold rows'.
  destruct (String.eqb split "test") eqn:Htest.
  - unfold ret at 1. eexists. split; [reflexivity|].
    intros w. unfold ds_prefetch, ds_cache.
    destruct (files w !! emb_split_file split) as [[ys|fs]|] eqn:Hfile;
      unfold emb_split_file in Hfile; rewrite Hfile; [done|done|].
    unfold bind at 1.
    change (ds_unbatch _) with
      (extract_features
         (ds_map "read_mp3" (fun x => ret (read_mp3 x))
            (from_tensor_slices (metadata_to_dataset_input rows')))).
    rewrite extract_features_traversal, Hread.
    unfold bind, write_file, ret. by rewrite append_log_app.
  - unfold ret at 1. eexists. split; [reflexivity|].
    intros w.
    change (ds_unbatch _ w) with
      (extract_features
         (ds_map "random_filter" Embeddings.random_filter
            (Embeddings.random_speed_change
               (ds_prefetch 1000
                  (ds_cache (emb_split_file split)
                     (ds_map "read_mp3" (fun x => ret (read_mp3 x))
                        (from_tensor_slices (metadata_to_dataset_input rows'))))))) w).
    unfold emb_downstream. rewrite extract_features_traversal.
    unfold ds_map at 1. unfold Embeddings.random_speed_change at 1.
    unfold Embeddings.random_signal_speed_change at 1.
    unfold ds_map at 1. unfold bind at 1 2.
    unfold ds_prefetch, ds_cache.
    destruct (files w !! emb_split_file split) as [[ys|fs]|] eqn:Hfile.
    + by rewrite extract_features_traversal.
    + done.
    + unfold bind at 1. rewrite Hread. unfold bind at 1. unfold write_file, ret.
      by rewrite extract_features_traversal.
Qed.

Lemma emb_downstream_effect xs (w : World) out w' :
  emb_downstream xs w = Some (out, w') ->
  files w' = files w /\ log w' = log w ++ emb_downstream_events xs.
Proof.
  unfold emb_downstream. rewrite extract_features_traversal.
  unfold Embeddings.random_speed_change, Embeddings.random_signal_speed_change.
  unfold ds_map, from_tensor_slices. unfold bind at 1 2. unfold ret at 1.
  destruct (for_each _ xs w) as [[zs w1]|] eqn:Hspeed; [|done].
  destruct (for_each _ zs w1) as [[ys w2]|] eqn:Hfilter; [|done].
  intros [= <- <-].
  apply (for_each_stage _ _ _ random_speed_change_wrapper_effect) in Hspeed
    as [Hw1 Hzs].
  apply (for_each_stage _ _ _ random_filter_wrapper_effect) in Hfilter
    as [Hw2 Hys].
  assert (Hk1 : events "random_filter" zs = events "random_filter" xs).
  { apply events_same_keys. eapply Forall2_impl; [exact Hzs|].
    intros x z (Hm & _). unfold key, SignalRec_keyed. by rewrite Hm. }
  assert (Hk2 : events "batch_extract_features" ys = events "batch_extract_features" xs).
  { apply events_same_keys. eapply Forall2_trans; [|exact Hzs|exact Hys].
    intros x z y (Hm1 & _) (Hm2 & _). unfold key, SignalRec_keyed. congruence. }
  rewrite Hw2, Hw1. simpl. split; [done|].
  unfold emb_downstream_events. rewrite Hk1, Hk2. by rewrite <- !app_assoc.
Qed.

End EmbeddingsPipeline.

(** ** What the caches hold *)

Section CacheClaims.
Context {N : Numerics} {R : RandomSource N} {L : AudioLib N}.

Lemma downstream_log split xs (w : World) out w' :
  downstream split xs w = Some (out, w') ->
  files w' = files w /\ log w' = log w ++ downstream_events split xs.
Proof. by intros (ys & _ & _ & ->)%downstream_effect. Qed.

(** C1 (as amended).  In [pipeline_from_metadata] the cache of every
    split, train, dev and test alike, holds the conditioned signals as
    [read_mp3] and the filter leave them; every read of the cache runs
    feature extraction on every cached element again, preceded for the
    train split by both augmentation wrappers.  In [pipeline_from_meta]
    the test split alone caches the feature records, and a read of that
    cache returns them and invokes nothing; every other split, dev
    included, caches the conditioned signals and is augmented and
    feature-extracted on every read. *)
Theorem cache_boundary rows split (w0 : World) :
  (exists ds w1 rows',
     pipeline_from_metadata rows split w0 = Some (ds, w1)
     /\ files w1 = files w0
     /\ rows' ≡ₚ rows
     /\ (forall w out w',
           files w !! split_file split = None -> ds w = Some (out, w') ->
           files w' !! split_file split = Some (SignalEntries (conditioned rows')))
     /\ (forall w xs out w',
           files w !! split_file split = Some (SignalEntries xs) ->
           ds w = Some (out, w') ->
           files w' = files w /\ log w' = log w ++ downstream_events split xs)
     /\ (split <> "train" -> forall w xs,
           files w !! split_file split = Some (SignalEntries xs) ->
           ds w = Some (map extract_one xs,
                        append_log (events "batch_extract_features" xs) w)))
  /\ (exists ds w1 rows',
        Embeddings.pipeline_from_meta rows split w0 = Some (ds, w1)
        /\ files w1 = files w0
        /\ rows' ≡ₚ rows
        /\ (split = "test" ->
            (forall w, files w !! emb_split_file split = None ->
               exists w', ds w = Some (map extract_one (map read_mp3 rows'), w')
                 /\ files w' !! emb_split_file split
                    = Some (FeatureEntries (map extract_one (map read_mp3 rows'))))
            /\ (forall w fs, files w !! emb_split_file split = Some (FeatureEntries fs) ->
                  ds w = Some (fs, w)))
        /\ (split <> "test" ->
            (forall w out w',
               files w !! emb_split_file split = None -> ds w = Some (out, w') ->
               files w' !! emb_split_file split
               = Some (SignalEntries (map read_mp3 rows')))
            /\ (forall w xs out w',
                  files w !! emb_split_file split = Some (SignalEntries xs) ->
                  ds w = Some (out, w') ->
                  files w' = files w /\ log w' = log w ++ emb_downstream_events xs))).
Proof.
  split.
  - destruct (pipeline_from_metadata_traversal rows split w0) as (ds & Hds & Hrun).
    pose proof (build_rows_perm rows split w0) as Hperm.
    set (rows' := if String.eqb split "train"
                  then (sample_frac_1 rows (global_rng w0)).1 else rows) in *.
    eexists ds, _, rows'. split; [exact Hds|].
    split; [by destruct (String.eqb split "train")|]. split; [exact Hperm|].
    split; [|split].
    + intros w out w' Hmiss. rewrite Hrun, Hmiss. apply downstream_cache_file.
    + intros w xs out w' Hfile. rewrite Hrun, Hfile. apply downstream_log.
    + intros Hsplit w xs Hfile. rewrite Hrun, Hfile. by apply downstream_other.
  - destruct (pipeline_from_meta_traversal rows split w0) as (ds & Hds & Hrun).
    set (rows' := if String.eqb split "train"
                  then (sample_frac_1 rows (np_rng w0)).1 else rows) in *.
    eexists ds, _, rows'. split; [exact Hds|].
    split; [by destruct (String.eqb split "train")|]. split.
    { subst rows'. destruct (String.eqb split "train"); [apply sample_frac_1_perm|done]. }
    split.
    + intros ->. change (String.eqb "test" "test") with true in Hrun. split.
      * intros w Hmiss. rewrite Hrun, Hmiss. eexists. split; [reflexivity|].
        simpl. apply lookup_insert_eq.
      * intros w fs Hfile. by rewrite Hrun, Hfile.
    + intros Hsplit%String.eqb_neq. rewrite Hsplit in Hrun. split.
      * intros w out w' Hmiss. rewrite Hrun, Hmiss.
        intros [Hf _]%emb_downstream_effect. rewrite Hf. simpl.
        apply lookup_insert_eq.
      * intros w xs out w' Hfile. rewrite Hrun, Hfile.
        apply emb_downstream_effect.
Qed.

End CacheClaims.

(** ** Invocation order and the shared generator *)

Section Scheduling.
Context {N : Numerics} {R : RandomSource N} {L : AudioLib N}.

Lemma index_of_seq j n : (j < n)%nat -> index_of j (seq 0 n) = Some j.
Proof.
  intros Hj. unfold index_of.
  assert (Hfind : list_find (fun i => i = j) (seq 0 n) = Some (j, j)).
  { apply list_find_Some. split; [by apply lookup_seq_lt|]. split; [done|].
    intros k y [-> _]%lookup_seq Hk. simpl. lia. }
  by rewrite Hfind.
Qed.

Lemma deliver_in_order_seq {B} (ys : list B) :
  deliver_in_order (seq 0 (length ys)) ys = ys.
Proof.
  unfold deliver_in_order.
  rewrite (list_omap_ext _ (fun i => ys !! i) _ (seq 0 (length ys))).
  - rewrite omap_lookup_seq by lia. by rewrite drop_0, firstn_all.
  - apply Forall_Forall2_diag, Forall_forall.
    intros j [_ Hj]%elem_of_seq. by rewrite index_of_seq by lia.
Qed.

Lemma for_each_length {A B} (f : A -> M B) xs (w : World) ys w' :
  for_each f xs w = Some (ys, w') -> length ys = length xs.
Proof.
  revert w ys w'. induction xs as [|x xs IH]; intros w ys w'; simpl.
  - by intros [= <- _].
  - unfold bind at 1. destruct (f x w) as [[y w1]|]; [|done].
    unfold bind at 1. destruct (for_each f xs w1) as [[ys' w2]|] eqn:Hxs; [|done].
    intros [= <- _]. simpl. by rewrite (IH _ _ _ Hxs).
Qed.

(** Invoking in input order is the sequential [ds.map]. *)
Lemma ds_map_scheduled_in_order {A B} `{Keyed A} fn (f : A -> M B) xs (w : World) :
  ds_map_scheduled (seq 0 (length xs)) fn f (from_tensor_slices xs) w
  = ds_map fn f (from_tensor_slices xs) w.
Proof.
  unfold ds_map_scheduled, ds_map, from_tensor_slices, bind, ret.
  rewrite omap_lookup_seq by lia. rewrite drop_0, firstn_all.
  destruct (for_each _ xs w) as [[ys w1]|] eqn:Hrun; [|done].
  apply for_each_length in Hrun. rewrite <- Hrun.
  by rewrite deliver_in_order_seq.
Qed.

End Scheduling.

(** ** Runs on concrete inputs *)

Section Runs.
Import Reference.

(** C1 (as stated) fails for the dev split of [pipeline_from_metadata]:
    after the first traversal the cache holds the conditioned signals of
    utterances a and c, not feature matrices, and the second traversal
    runs feature extraction on both again. *)
Lemma dev_cache_holds_signals_and_features_are_recomputed :
  match traverse_twice (pipeline_from_metadata (rows_of "dev") "dev") (world [] [] []) with
  | Some ((out1, out2, w1), w2) =>
      files w1 !! split_file "dev" = Some (SignalEntries (conditioned (rows_of "dev")))
      /\ ids out2 = ["a"; "c"]
      /\ log w2 = log w1 ++ [("batch_extract_features", "a"); ("batch_extract_features", "c")]
  | None => False
  end.
Proof. vm_compute. repeat split. Qed.

(** C2 (as stated) fails for [pipeline_from_meta]: nothing filters the
    silent clip of utterance b, its empty signal goes through feature
    extraction and the resulting record is written to the cache. *)
Lemma empty_signal_reaches_features_and_cache :
  match traverse_once (Embeddings.pipeline_from_meta (rows_of "test") "test")
          (world [] [] []) with
  | Some (out, w') =>
      map (fun f => (id (meta (base f)), length (signal (base f)))) out
      = [("a", 3%nat); ("b", 0%nat); ("c", 3%nat)]
      /\ log w' = [("read_mp3", "a"); ("read_mp3", "b"); ("read_mp3", "c");
                   ("batch_extract_features", "a"); ("batch_extract_features", "b");
                   ("batch_extract_features", "c")]
      /\ files w' !! emb_split_file "test" = Some (FeatureEntries out)
  | None => False
  end.
Proof. vm_compute. repeat split. Qed.

Lemma random_speed_change_wrapper_copies_only_witness :
  random_speed_change_wrapper (utt "a" false [1; 2; 3]) (world [900] [] [])
  = Some (utt "a" false [1; 2; 3], world [900] [] [])
  /\ random_speed_change_wrapper (utt "a" true [1; 2; 3]) (world [900] [] [])
     = Some (utt "a" true [1; 2], world [] [] []).
Proof.
  split.
  - apply (proj1 (random_speed_change_wrapper_copies_only
                    (utt "a" false [1; 2; 3]) (world [900] [] []))).
    reflexivity.
  - rewrite (proj1 (proj2 (random_speed_change_wrapper_copies_only
                               (utt "a" true [1; 2; 3]) (world [900] [] [])))).
    + vm_compute. reflexivity.
    + reflexivity.
Defined.




(** C8: one seed, two runs, different augmented signals.  With the same
    generator state and the same cached copies, invoking the speed change
    on a before c gives a three samples and c two; invoking it on c
    first gives a two and c three.  And with the same [np_rng] but a
    different state of the unseeded global generator that orders the
    rows, the sequential traversal gives the two utterances the lengths
    the other way round. *)
Lemma same_seed_different_augmentation :
  (fun r => lengths r.1) <$> augment_train_scheduled [0; 1]%nat copies (world seed [] [])
    = Some [("a", 3%nat); ("c", 2%nat)]
  /\ (fun r => lengths r.1) <$> augment_train_scheduled [1; 0]%nat copies (world seed [] [])
    = Some [("a", 2%nat); ("c", 3%nat)]
  /\ (fun r => lengths (map base r.1))
       <$> traverse_once (pipeline_from_metadata copy_rows "train") (world seed [0] [])
    = Some [("a", 3%nat); ("c", 2%nat)]
  /\ (fun r => lengths (map base r.1))
       <$> traverse_once (pipeline_from_metadata copy_rows "train") (world seed [1] [])
    = Some [("c", 3%nat); ("a", 2%nat)].
Proof. vm_compute. repeat split. Qed.

Lemma augmentation_wrappers_frame_witness :
  id (meta (utt "a" true [1; 2])) = id (meta (utt "a" true [1; 2; 3]))
  /\ path (meta (utt "a" true [1; 2])) = path (meta (utt "a" true [1; 2; 3]))
  /\ label (meta (utt "a" true [1; 2])) = label (meta (utt "a" true [1; 2; 3]))
  /\ target (meta (utt "a" true [1; 2])) = target (meta (utt "a" true [1; 2; 3]))
  /\ split (meta (utt "a" true [1; 2])) = split (meta (utt "a" true [1; 2; 3]))
  /\ is_copy (meta (utt "a" true [1; 2])) = is_copy (meta (utt "a" true [1; 2; 3]))
  /\ sample_rate (utt "a" true [1; 2]) = sample_rate (utt "a" true [1; 2; 3]).
Proof.
  apply (augmentation_wrappers_frame (utt "a" true [1; 2; 3]) (utt "a" true [1; 2])
           (world [900] [] []) (world [] [] [])).
  left. vm_compute. reflexivity.
Defined.


Lemma batch_extract_features_order_witness :
  log_eps (L := lib) [[@of_int Exact 1; @of_int Exact 2]; [@of_int Exact 3; @of_int Exact 4]]
    !! 1%nat ≫= (fun r => r !! 0%nat)
  = Some (tf_math_log (f32_add (@of_int Exact 3) (@of_lit Exact (1 # 1000000)))).
Proof.
  apply (proj1 (proj2 (proj2 (proj2 (batch_extract_features_order (utt "a" false [1])))))
           [[@of_int Exact 1; @of_int Exact 2]; [@of_int Exact 3; @of_int Exact 4]]
           1%nat 0%nat [@of_int Exact 3; @of_int Exact 4] (@of_int Exact 3));
    reflexivity.
Defined.

Lemma cache_boundary_witness :
  match traverse_once (pipeline_from_metadata (rows_of "dev") "dev") (world [] [] []) with
  | Some (out, w') =>
      exists rows', rows' ≡ₚ rows_of "dev"
        /\ files w' !! split_file "dev" = Some (SignalEntries (conditioned rows'))
  | None => False
  end.
Proof.
  destruct (cache_boundary (rows_of "dev") "dev" (world [] [] []))
    as [(ds & w1 & rows' & Hbuild & Hfiles & Hperm & Hmiss & _) _].
  assert (Htr : traverse_once (pipeline_from_metadata (rows_of "dev") "dev") (world [] [] [])
                = ds w1).
  { unfold traverse_once, bind. by rewrite Hbuild. }
  rewrite Htr. destruct (ds w1) as [[out w']|] eqn:Hrun.
  - exists rows'. split; [exact Hperm|].
    apply (Hmiss w1 out w'); [|exact Hrun]. rewrite Hfiles. reflexivity.
  - vm_compute in Htr. discriminate.
Defined.

Lemma empty_signals_filtered_before_cache_witness :
  match traverse_once (pipeline_from_metadata (rows_of "train") "train")
          (world seed [1] []) with
  | Some (out, w') => Forall (fun f => signal (base f) <> []) out
  | None => False
  end.
Proof.
  destruct (empty_signals_filtered_before_cache (rows_of "train") "train" (world seed [1] []))
    as (ds & w1 & rows' & Hbuild & Hfiles & _ & _ & _ & _ & Hout & _).
  assert (Htr : traverse_once (pipeline_from_metadata (rows_of "train") "train")
                  (world seed [1] []) = ds w1).
  { unfold traverse_once, bind. by rewrite Hbuild. }
  rewrite Htr. destruct (ds w1) as [[out w']|] eqn:Hrun.
  - apply (Hout w1 out w'); [|exact Hrun]. left. rewrite Hfiles. reflexivity.
  - vm_compute in Htr. discriminate.
Defined.


End Runs.

(** ** The filter and the speed change as the inspection cells call them *)

Section FilterEdges.
Context {N : Numerics} {R : RandomSource N} {L : AudioLib N}.

Lemma scipy_signal_lfilter_None b a x :
  scipy_signal_lfilter b a x = None <-> b = [] \/ x = [].
Proof.
  destruct b as [|b0 b], x as [|x0 x]; simpl; split; intros H; try done; auto.
  by destruct H.
Qed.

Lemma normal_nil_iff loc scale n g : (normal loc scale n g).1 = [] <-> n = 0%nat.
Proof.
  pose proof (normal_length loc scale n g) as Hlen.
  split.
  - intros Hnil. by rewrite Hnil in Hlen.
  - intros ->. done.
Qed.

(** X1.  [random_filter(s, N)] raises exactly when the signal is empty or
    [N] is zero.  When it returns, the filtered signal has as many samples
    as [s], there are [N] coefficients, and [np_rng] has advanced past
    [N] normal deviates; nothing else has changed. *)
Theorem random_filter_keeps_length (s : list num) (n : nat) (w : World) :
  (random_filter s n w = None <-> s = [] \/ n = 0%nat)
  /\ (forall s' b w', random_filter s n w = Some ((s', b), w') ->
        length s' = length s
        /\ length b = n
        /\ w' = set_np_rng (standard_normals n (np_rng w)).2 w).
Proof.
  unfold random_filter, bind, with_np_rng, lift_option, ret.
  pose proof (normal_standard_normals (of_int 0) (of_int 1) n (np_rng w)) as Hb.
  pose proof (normal_length (of_int 0) (of_int 1) n (np_rng w)) as Hlen.
  pose proof (normal_nil_iff (of_int 0) (of_int 1) n (np_rng w)) as Hnil.
  destruct (normal (of_int 0) (of_int 1) n (np_rng w)) as [b g] eqn:Hnorm.
  simpl in Hlen, Hnil.
  destruct (scipy_signal_lfilter b (of_lit 1) s) as [y|] eqn:Hy.
  - split.
    + split; [done|]. intros Hempty.
      assert (Hnone : scipy_signal_lfilter b (of_lit 1) s = None).
      { apply scipy_signal_lfilter_None. destruct Hempty as [->|Hn]; [by right|].
        left. by apply Hnil. }
      congruence.
    + intros s' b' w' Heq. injection Heq as Hs' Hb' Hw'. subst s' b' w'.
      assert (Hne : b <> [] /\ s <> []).
      { destruct b, s; done. }
      destruct Hne as [Hbne Hsne].
      destruct (scipy_signal_lfilter_fir b (of_lit 1) s Hbne Hsne) as (y' & Hy' & Hl & _).
      rewrite length_map. split; [congruence|]. split; [done|].
      injection Hb as _ <-. done.
  - split; [|done]. split; [|done]. intros _.
    apply scipy_signal_lfilter_None in Hy as [Hb0 | Hs0]; [right | left; exact Hs0].
    subst b. by apply Hnil.
Qed.

End FilterEdges.

Section FixedRatio.
Context {R : RandomSource Exact} {L : AudioLib Exact}.

(** X2.  Called with [lo = hi], as the inspection loop does, the speed
    change uses that ratio whatever the generator yields, and still
    consumes one draw of [np_rng]: in exact arithmetic the ratio returned
    equals [lo] and the signal is resampled to [floor(len(s) / lo)]
    samples, which for the ratio 1 is the length it had. *)
Theorem random_speed_change_fixed_ratio
    (s : list (@num Exact)) (r : Z) (q u : Q) (g' : @G Exact R) (w : @World Exact R) :
  0 < r -> (0 < q)%Q ->
  random (np_rng w) = (Some u : @num Exact, g') ->
  let n := Qfloor (inject_Z (Z.of_nat (length s)) / q) in
  exists ratio : Q,
    Qeq ratio q
    /\ random_speed_change s r (@of_lit Exact q) (@of_lit Exact q) w =
         match scipy_signal_resample s n with
         | Some y => Some ((y, Some ratio : @num Exact), set_np_rng g' w)
         | None => None
         end
    /\ (Qeq q 1 -> n = Z.of_nat (length s)).
Proof.
  intros Hr Hq Hu n.
  exists (q + (q - q) * u)%Q.
  assert (Hratio : Qeq (q + (q - q) * u) q) by ring.
  split; [exact Hratio|]. split.
  - unfold random_speed_change, bind, with_np_rng, lift_option, ret, uniform.
    rewrite Hu.
    change (fadd (@of_lit Exact q) (fmul (fsub (@of_lit Exact q) (@of_lit Exact q)) (Some u)))
      with (Some (q + (q - q) * u)%Q : @num Exact).
    rewrite new_len_exact; [|done|by rewrite Hratio].
    assert (Hn : Qtrunc (inject_Z (Z.of_nat (length s)) / (q + (q - q) * u)) = n).
    { subst n. rewrite <- Qtrunc_nonneg.
      - apply Qtrunc_comp. by rewrite Hratio.
      - apply Qle_shift_div_l; [done|]. rewrite Qmult_0_l.
        rewrite <- (Zle_Qle 0). lia. }
    rewrite Hn.
    destruct (scipy_signal_resample s n) as [y|]; [|done].
    by rewrite map_id.
  - intros Hone. subst n.
    assert (Heq : Qeq (inject_Z (Z.of_nat (length s)) / q) (inject_Z (Z.of_nat (length s)))).
    { rewrite Hone. field. }
    rewrite (Qfloor_comp _ _ Heq). apply Qfloor_Z.
Qed.

End FixedRatio.

(** ** Traversals of the split datasets *)

Section SplitDatasets.
Context {N : Numerics} {R : RandomSource N} {L : AudioLib N}.

(** X3.  For a split other than train, two traversals of the dataset of
    [pipeline_from_metadata] starting without a cache file never fail and
    yield the same records: the features of the conditioned, non-empty
    signals in metadata order.  The first traversal invokes [read_mp3]
    once per row and writes the cache; the second invokes
    [batch_extract_features] only. *)
Theorem eval_split_traversal_repeats rows sp (w0 : World) :
  sp <> "train" -> files w0 !! split_file sp = None ->
  let xs := conditioned rows in
  let w1 := append_log (events "batch_extract_features" xs)
              (set_file (split_file sp) (SignalEntries xs)
                 (append_log (events "read_mp3" rows) w0)) in
  traverse_twice (pipeline_from_metadata rows sp) w0
  = Some ((map extract_one xs, map extract_one xs, w1),
          append_log (events "batch_extract_features" xs) w1).
Proof.
  intros Hsp Hmiss xs w1.
  destruct (pipeline_from_metadata_traversal rows sp w0) as (ds & Hds & Hrun).
  pose proof Hsp as Hneq. apply String.eqb_neq in Hneq.
  rewrite Hneq in Hds, Hrun.
  unfold traverse_twice. unfold bind at 1. rewrite Hds.
  unfold bind at 1. rewrite Hrun, Hmiss.
  rewrite downstream_other by done. fold xs. fold w1.
  unfold bind at 1. rewrite Hrun.
  assert (Hfile : files w1 !! split_file sp = Some (SignalEntries xs)).
  { subst w1. simpl. apply lookup_insert_eq. }
  rewrite Hfile. by rewrite downstream_other.
Qed.

Lemma emb_downstream_signals xs (w : World) out w' :
  emb_downstream xs w = Some (out, w') ->
  Forall2 (fun x f => meta (base f) = meta x
                      /\ (is_copy (meta x) = false -> signal x <> [])) xs out
  /\ global_rng w' = global_rng w /\ tf_rng w' = tf_rng w.
Proof.
  unfold emb_downstream. rewrite extract_features_traversal.
  unfold Embeddings.random_speed_change, Embeddings.random_signal_speed_change.
  unfold ds_map, from_tensor_slices. unfold bind at 1 2. unfold ret at 1.
  destruct (for_each _ xs w) as [[zs w1]|] eqn:Hspeed; [|done].
  destruct (for_each _ zs w1) as [[ys w2]|] eqn:Hfilter; [|done].
  intros [= <- <-].
  apply (for_each_stage _ _ _ random_speed_change_wrapper_effect) in Hspeed
    as [Hw1 Hzs].
  apply (for_each_stage _ _ _ random_filter_wrapper_effect) in Hfilter
    as [Hw2 Hys].
  split; [|by rewrite Hw2, Hw1].
  apply Forall2_fmap_r.
  eapply Forall2_trans; [|exact Hzs|exact Hys].
  intros x z y (Hm1 & _ & Hs1) (Hm2 & _ & Hl2 & Hne). simpl.
  split; [congruence|]. intros Hc. by rewrite <- (Hs1 Hc).
Qed.

Lemma Forall2_read_mp3_meta (rows : list MetaRow) (out : list FeatRec) :
  Forall2 (fun x f => meta (base f) = meta x) (map read_mp3 rows) out ->
  map (fun f => meta (base f)) out = rows.
Proof.
  revert out. induction rows as [|r rows IH]; intros out Hout.
  - by apply Forall2_nil_inv_l in Hout as ->.
  - cbn [map] in Hout.
    apply Forall2_cons_inv_l in Hout as (f & out' & Hm & Hout' & ->).
    cbn [map]. rewrite Hm, meta_read_mp3. f_equal. by apply IH.
Qed.

(** X4.  A traversal of the dataset of [pipeline_from_meta] that starts
    without a cache file and does not raise yields exactly one record per
    row of the metadata it was built from, none dropped, with that row's
    columns: in metadata order, or for the train split in the order drawn
    once from [np_rng] when the pipeline was built.  The test split is not
    augmented: its records are the features of the conditioned clips, and
    its traversal advances no generator. *)
Theorem pipeline_from_meta_keeps_every_row rows sp (w0 : World) out w' :
  files w0 !! emb_split_file sp = None ->
  traverse_once (Embeddings.pipeline_from_meta rows sp) w0 = Some (out, w') ->
  let rows' := if String.eqb sp "train"
               then (sample_frac_1 rows (np_rng w0)).1 else rows in
  map (fun f => meta (base f)) out = rows'
  /\ rows' ≡ₚ rows
  /\ (sp = "test" ->
      out = map extract_one (map read_mp3 rows)
      /\ np_rng w' = np_rng w0
      /\ global_rng w' = global_rng w0
      /\ tf_rng w' = tf_rng w0).
Proof.
  intros Hmiss Hrun rows'.
  destruct (pipeline_from_meta_traversal rows sp w0) as (ds & Hds & Hds_run).
  fold rows' in Hds_run.
  unfold traverse_once, bind in Hrun. rewrite Hds in Hrun.
  set (w1 := if String.eqb sp "train"
             then set_np_rng (sample_frac_1 rows (np_rng w0)).2 w0 else w0) in *.
  assert (Hfiles : files w1 = files w0) by (subst w1; by destruct (String.eqb sp "train")).
  rewrite Hds_run, Hfiles, Hmiss in Hrun.
  assert (Hmeta : forall l, map (fun x => meta (extract_one (read_mp3 x)).(base)) l = l).
  { clear. induction l as [|r l IH]; [done|].
    cbn [map]. f_equal; [apply meta_read_mp3|exact IH]. }
  assert (Hperm : rows' ≡ₚ rows).
  { subst rows'. destruct (String.eqb sp "train"); [apply sample_frac_1_perm|done]. }
  destruct (String.eqb sp "test") eqn:Htest.
  - injection Hrun as <- <-.
    rewrite !map_map. split; [apply Hmeta|]. split; [exact Hperm|].
    intros ->. subst rows' w1. done.
  - apply emb_downstream_signals in Hrun as (Hout & _).
    split; [|split; [exact Hperm|]].
    + eapply Forall2_read_mp3_meta, Forall2_impl; [exact Hout|]. by intros x f (Hm & _).
    + intros ->. done.
Qed.

(** X5.  [pipeline_from_meta] has no filter for empty signals.  For a
    split other than test, a traversal starting without a cache file
    raises as soon as the metadata holds one original (not a copy) whose
    conditioned signal is empty: the random filter cannot be applied to
    it. *)
Theorem pipeline_from_meta_raises_on_silent_clip rows sp (w0 : World) r :
  sp <> "test" -> files w0 !! emb_split_file sp = None ->
  r ∈ rows -> is_copy r = false -> signal (read_mp3 r) = [] ->
  traverse_once (Embeddings.pipeline_from_meta rows sp) w0 = None.
Proof.
  intros Hsp Hmiss Hr Hcopy Hsilent.
  destruct (traverse_once (Embeddings.pipeline_from_meta rows sp) w0)
    as [[out w']|] eqn:Hrun; [exfalso|done].
  destruct (pipeline_from_meta_traversal rows sp w0) as (ds & Hds & Hds_run).
  set (rows' := if String.eqb sp "train"
                then (sample_frac_1 rows (np_rng w0)).1 else rows) in *.
  assert (Hperm : rows' ≡ₚ rows).
  { subst rows'. destruct (String.eqb sp "train"); [apply sample_frac_1_perm|done]. }
  unfold traverse_once, bind in Hrun. rewrite Hds in Hrun.
  set (w1 := if String.eqb sp "train"
             then set_np_rng (sample_frac_1 rows (np_rng w0)).2 w0 else w0) in *.
  assert (Hfiles : files w1 = files w0) by (subst w1; by destruct (String.eqb sp "train")).
  apply String.eqb_neq in Hsp.
  rewrite Hds_run, Hsp, Hfiles, Hmiss in Hrun.
  apply emb_downstream_signals in Hrun as (Hout & _).
  assert (Hall : Forall (fun x => is_copy (meta x) = false -> signal x <> [])
                   (map read_mp3 rows')).
  { eapply Forall2_Forall_l; [exact Hout|].
    apply Forall_forall. intros f _ x (_ & Hne). exact Hne. }
  rewrite Forall_forall in Hall.
  apply (Hall (read_mp3 r)).
  - apply list_elem_of_fmap. exists r. split; [done|]. by rewrite Hperm.
  - by rewrite meta_read_mp3.
  - done.
Qed.

Lemma as_model_input_conditioned (rows : list MetaRow) :
  map as_model_input (map extract_one (conditioned rows))
  = map (fun r => (logmelspec (extract_one (read_mp3 r)), target r))
      (List.filter (fun r => signal_is_not_empty (read_mp3 r)) rows).
Proof.
  rewrite map_map. unfold conditioned.
  induction rows as [|r rows IH]; [done|].
  cbn [map List.filter].
  destruct (signal_is_not_empty (read_mp3 r)); [|exact IH].
  cbn [map]. f_equal; [|exact IH].
  unfold as_model_input. simpl. by rewrite meta_read_mp3.
Qed.

(** X6.  [dev_ds], traversed for the first time, never fails and pairs
    every utterance of the dev split whose conditioned signal is not
    empty with its own target: element [k] is the feature matrix and the
    target of the [k]-th such row of the metadata.  No generator is
    advanced. *)
Theorem dev_ds_pairs_features_with_targets rows (w0 : World) :
  files w0 !! split_file "dev" = None ->
  exists w',
    bind (pipeline_from_metadata rows "dev") dev_ds w0
    = Some (map (fun r => (logmelspec (extract_one (read_mp3 r)), target r))
              (List.filter (fun r => signal_is_not_empty (read_mp3 r)) rows), w')
    /\ np_rng w' = np_rng w0 /\ global_rng w' = global_rng w0 /\ tf_rng w' = tf_rng w0.
Proof.
  intros Hmiss.
  destruct (pipeline_from_metadata_traversal rows "dev" w0) as (ds & Hds & Hrun).
  change (String.eqb "dev" "train") with false in Hds, Hrun. cbv iota in Hds, Hrun.
  unfold bind at 1. rewrite Hds.
  unfold dev_ds, ds_map. unfold bind at 1. rewrite Hrun, Hmiss.
  rewrite downstream_other by done.
  rewrite (for_each_pure "as_model_input" as_model_input).
  rewrite as_model_input_conditioned.
  eexists. split; [reflexivity|done].
Qed.

End SplitDatasets.

(** ** One dataset and one cache per split *)

Section CacheFilling.
Context {N : Numerics} {R : RandomSource N} {L : AudioLib N}.












End CacheFilling.

(** ** The language vectors *)

Section Vectors.
Context {N : Numerics} {R : RandomSource N} {L : AudioLib N}.
Context {E : Extractor N}.
Import EmbeddingVectors.

Lemma batch_extract_embeddings_one (f : FeatRec) :
  batch_extract_embeddings [f] = [mkEmbRec f (embedding_of f)].
Proof.
  unfold batch_extract_embeddings, embedding_of.
  pose proof (xvec_extractor_length [logmelspec f]) as Hlen.
  cbn [map]. destruct (xvec_extractor [logmelspec f]) as [|e [|e' es]]; done.
Qed.

Lemma zip_fst_snd {A B C} (f : A -> B) (g : A -> C) (l : list A) :
  zip (map f l) (map g l) = map (fun x => (f x, g x)) l.
Proof. induction l as [|x l IH]; simpl; [done|]. by rewrite IH. Qed.

Lemma ds_to_embeddings_traversal (ds : Dataset FeatRec) (w : World) :
  ds_to_embeddings ds w =
    match ds w with
    | Some (fs, w1) =>
        if bool_decide (NoDup (map (fun f => id (meta (base f))) fs))
        then Some (map table_row fs,
                   append_log (events "batch_extract_embeddings" fs ++ events "to_pair" fs) w1)
        else None
    | None => None
    end.
Proof.
  unfold ds_to_embeddings, ds_map, ds_unbatch, ds_batch.
  unfold bind at 1 2 3 4 5. destruct (ds w) as [[fs w1]|]; [|done].
  unfold ret at 1. rewrite chunks_one.
  rewrite (for_each_pure "batch_extract_embeddings" batch_extract_embeddings).
  unfold ret at 1.
  assert (Hcat : concat (map batch_extract_embeddings (map (fun x => [x]) fs))
                 = map (fun f => mkEmbRec f (embedding_of f)) fs).
  { clear. induction fs as [|f fs IH]; [done|].
    cbn [map concat]. by rewrite batch_extract_embeddings_one, IH. }
  rewrite Hcat.
  rewrite (for_each_pure "to_pair"
             (fun x : EmbRec => (id (meta (base (feat x))), embedding x))).
  rewrite !map_map. cbn [fst snd feat embedding].
  unfold set_index_verify.
  rewrite (zip_fst_snd (fun x : FeatRec => id (meta (base x)))
             (fun x : FeatRec => map to_float32 (embedding_of x))), map_map.
  cbn [fst].
  destruct (bool_decide (NoDup (map (fun f => id (meta (base f))) fs))); [|done].
  unfold ret. f_equal. f_equal.
  rewrite append_log_app. f_equal. f_equal.
  - unfold events. rewrite map_map. apply map_ext. intros f.
    unfold key, batch_keyed. simpl. done.
  - unfold events. by rewrite map_map.
Qed.

(** X8.  [ds_to_embeddings] traverses the dataset once and returns one
    table row per record, in traversal order: the id of the utterance and
    the vector the extractor computes from that utterance's own feature
    matrix, as float32.  It raises exactly when the traversal raises or
    two records carry the same id.  It writes no file and draws nothing
    beyond what the traversal does. *)
Theorem ds_to_embeddings_one_row_per_utterance (ds : Dataset FeatRec) (w : World) :
  (forall t w', ds_to_embeddings ds w = Some (t, w') ->
     exists fs w1,
       ds w = Some (fs, w1)
       /\ t = map (fun f => (id (meta (base f)), map to_float32 (embedding_of f))) fs
       /\ NoDup (map fst t)
       /\ files w' = files w1 /\ np_rng w' = np_rng w1
       /\ global_rng w' = global_rng w1 /\ tf_rng w' = tf_rng w1)
  /\ (ds_to_embeddings ds w = None <->
      ds w = None
      \/ exists fs w1, ds w = Some (fs, w1)
           /\ ~ NoDup (map (fun f => id (meta (base f))) fs)).
Proof.
  rewrite ds_to_embeddings_traversal.
  destruct (ds w) as [[fs w1]|].
  - destruct (bool_decide (NoDup (map (fun f => id (meta (base f))) fs))) eqn:Hids.
    + apply bool_decide_eq_true in Hids. split.
      * intros t w' [= <- <-]. exists fs, w1. split; [done|]. split; [done|].
        split; [|done]. unfold table_row. by rewrite map_map.
      * split; [done|]. intros [?|(fs' & w1' & [= <- <-] & Hdup)]; done.
    + apply bool_decide_eq_false in Hids. split; [done|].
      split; [|done]. intros _. right. by exists fs, w1.
  - split; [done|]. split; [by left|done].
Qed.

End Vectors.

Section JoinByIdentifier.
Context {N : Numerics} {R : RandomSource N} {L : AudioLib N}.
Context {E : Extractor N}.
Import EmbeddingVectors.


























End JoinByIdentifier.

Section RandomSample.
Context {R : RandomSource Exact} {Ch : ChoiceSource Exact R}.
Import EmbeddingVectors.

Lemma mapM_lookup_lt {A} (l : list A) (idx : list nat) :
  Forall (fun i => (i < length l)%nat) idx ->
  exists l', mapM (fun i => l !! i) idx = Some l'
    /\ Forall2 (fun i x => l !! i = Some x) idx l'.
Proof.
  intros Hidx.
  destruct (mapM (fun i => l !! i) idx) as [l'|] eqn:Hl'.
  - exists l'. split; [done|]. by apply mapM_Some_1.
  - apply mapM_None_1, Exists_exists in Hl' as (i & Hi & Hnone).
    rewrite Forall_forall in Hidx. apply Hidx in Hi.
    apply lookup_ge_None in Hnone. lia.
Qed.

(** X10.  In exact arithmetic, for a ratio between 0 and 1 and as many
    labels as vectors, [random_sample] never fails: it draws
    [floor(ratio * N)] distinct positions from [np_rng] and returns the
    vectors and the labels at those positions, so that every sampled
    vector keeps its own label and none is taken twice.  A ratio that
    asks for more rows than there are makes it raise. *)
Theorem random_sample_keeps_pairs {A B} (X : list A) (y : list B) (q : Q)
    (w : @World Exact R) :
  let k := Z.to_nat (Qfloor (q * inject_Z (Z.of_nat (length X)))) in
  (0 <= q)%Q ->
  (length y = length X -> (q <= 1)%Q ->
   exists idx g' X' y',
     random_sample X y (Some q : @num Exact) w = Some ((X', y'), set_np_rng g' w)
     /\ choice (np_rng w) (length X) k = Some (idx, g')
     /\ length X' = k /\ length y' = k /\ NoDup idx
     /\ Forall2 (fun i x => X !! i = Some x) idx X'
     /\ Forall2 (fun i v => y !! i = Some v) idx y')
  /\ ((length X < k)%nat -> random_sample X y (Some q : @num Exact) w = None).
Proof.
  intros k Hq.
  assert (Hn : (0 <= inject_Z (Z.of_nat (length X)))%Q) by (rewrite <- (Zle_Qle 0); lia).
  assert (Hprod : (0 <= q * inject_Z (Z.of_nat (length X)))%Q) by (by apply Qmult_le_0_compat).
  assert (Hint : @to_int Exact (@fmul Exact (Some q) (@of_int Exact (Z.of_nat (length X))))
                 = Some (Qfloor (q * inject_Z (Z.of_nat (length X))))).
  { simpl. by rewrite Qtrunc_nonneg. }
  assert (Hfloor : 0 <= Qfloor (q * inject_Z (Z.of_nat (length X)))).
  { apply (Qfloor_resp_le 0) in Hprod. exact Hprod. }
  assert (Hneg : (Qfloor (q * inject_Z (Z.of_nat (length X))) <? 0) = false)
    by (apply Z.ltb_ge; exact Hfloor).
  split.
  - intros Hlen Hq1.
    assert (Hk : (k <= length X)%nat).
    { subst k.
      assert (Hle : (q * inject_Z (Z.of_nat (length X)) <= inject_Z (Z.of_nat (length X)))%Q).
      { rewrite <- (Qmult_1_l (inject_Z (Z.of_nat (length X)))) at 2.
        by apply Qmult_le_compat_r. }
      apply Qfloor_resp_le in Hle. rewrite Qfloor_Z in Hle. lia. }
    destruct (choice (np_rng w) (length X) k) as [[idx g']|] eqn:Hchoice.
    + destruct (choice_Some _ _ _ _ _ Hchoice) as (Hlidx & Hnodup & Hidx).
      destruct (mapM_lookup_lt X idx Hidx) as (X' & HX' & HXs).
      destruct (mapM_lookup_lt y idx) as (y' & Hy' & Hys); [by rewrite Hlen|].
      exists idx, g', X', y'. split; [|split; [done|]].
      * unfold random_sample, bind, lift_option. rewrite Hint, Hneg.
        unfold with_np_rng_choice. fold k. rewrite Hchoice, HX', Hy'. done.
      * pose proof (Forall2_length _ _ _ HXs) as HlX.
        pose proof (Forall2_length _ _ _ Hys) as Hly.
        split; [by rewrite <- HlX|]. split; [by rewrite <- Hly|]. done.
    + apply choice_None in Hchoice. lia.
  - intros Hk. apply (proj2 (choice_None (np_rng w) _ _)) in Hk.
    unfold random_sample, bind, lift_option. rewrite Hint, Hneg.
    unfold with_np_rng_choice. fold k. by rewrite Hk.
Qed.

End RandomSample.

Section TrainRecords.
Context {N : Numerics} {R : RandomSource N} {L : AudioLib N}.

(** X11.  Reading the cache of the train split, the dataset of
    [pipeline_from_metadata] yields one record for every cached record, in
    cache order and with its metadata and sample rate: augmentation
    neither drops nor repeats an utterance.  An original keeps its number
    of samples, every signal that comes out is non-empty, and the
    features are those of the augmented signal, not of the cached one.
    The traversal writes no file and advances neither NumPy's global
    generator nor TensorFlow's. *)
Theorem train_traversal_keeps_records rows (w0 : World) ds w1 xs (w : World) out w' :
  pipeline_from_metadata rows "train" w0 = Some (ds, w1) ->
  files w !! split_file "train" = Some (SignalEntries xs) ->
  ds w = Some (out, w') ->
  Forall2 (fun x f =>
             meta (base f) = meta x
             /\ sample_rate (base f) = sample_rate x
             /\ signal (base f) <> []
             /\ (is_copy (meta x) = false -> length (signal (base f)) = length (signal x))
             /\ f = extract_one (base f)) xs out
  /\ files w' = files w
  /\ global_rng w' = global_rng w
  /\ tf_rng w' = tf_rng w.
Proof.
  intros Hbuild Hfile Hrun.
  destruct (pipeline_from_metadata_traversal rows "train" w0) as (ds' & Hds & Htrav).
  rewrite Hbuild in Hds. injection Hds as <- _.
  rewrite Htrav, Hfile in Hrun.
  apply downstream_effect in Hrun as (ys & -> & Hys & ->).
  split; [|done].
  apply Forall2_fmap_r.
  eapply Forall2_impl; [exact Hys|].
  intros x y (Hm & Hr & Hlen & _ & Hne). simpl.
  split; [done|]. split; [done|]. split; [by apply Hne|]. split; [|done].
  intros Hc. apply Hlen. by right.
Qed.

End TrainRecords.

Section LabelsOfTargets.

Lemma target2lang_foldl (items : list (string * Z)) (m : gmap Z string) t l :
  NoDup (map snd items) ->
  (foldl (fun m lt => <[snd lt := fst lt]> m) m items !! t = Some l)
  <-> ((l, t) ∈ items \/ (~ t ∈ map snd items /\ m !! t = Some l)).
Proof.
  revert m. induction items as [|[l0 t0] items IH]; intros m Hnodup.
  - simpl. split.
    + intros Hm. right. split; [apply not_elem_of_nil|done].
    + by intros [?%elem_of_nil|[_ ?]].
  - cbn [map snd] in Hnodup. apply NoDup_cons in Hnodup as [Hnotin Hnodup].
    cbn [foldl fst snd]. rewrite (IH _ Hnodup).
    cbn [map snd]. rewrite elem_of_cons, not_elem_of_cons.
    destruct (decide (t = t0)) as [->|Hne].
    + rewrite lookup_insert_eq. split.
      * intros [Hin|[_ Heq]].
        -- exfalso. apply Hnotin. apply list_elem_of_fmap. by exists (l, t0).
        -- injection Heq as ->. by left; left.
      * intros [[Heq|Hin]|[[Hne _] _]].
        -- injection Heq as ->. by right.
        -- by left.
        -- done.
    + rewrite lookup_insert_ne by done. split.
      * intros [Hin|[Hnot Hm]]; [by left; right|by right].
      * intros [[Heq|Hin]|[[_ Hnot] Hm]].
        -- injection Heq as _ ->. done.
        -- by left.
        -- by right.
Qed.

(** X12.  [target2lang] inverts [lang2target]: when no two languages share
    a target, the language found for a target is the one language mapped
    to it, and the list of languages of a sequence of targets is defined
    exactly when every target belongs to some language.  In any case a
    language found for a target is one that [lang2target] maps to it. *)
Theorem target2lang_inverts (lang2target : list (string * Z)) :
  (forall t l, target2lang lang2target !! t = Some l -> (l, t) ∈ lang2target)
  /\ (NoDup (map snd lang2target) ->
      (forall l t, (l, t) ∈ lang2target <-> target2lang lang2target !! t = Some l)
      /\ (forall targets,
            is_Some (langs_of_targets lang2target targets)
            <-> Forall (fun t => t ∈ map snd lang2target) targets)).
Proof.
  assert (Hsound : forall (items : list (string * Z)) (m : gmap Z string) t l,
            foldl (fun m lt => <[snd lt := fst lt]> m) m items !! t = Some l ->
            (l, t) ∈ items \/ m !! t = Some l).
  { induction items as [|[l0 t0] items IH]; intros m t l; [by right|].
    cbn [foldl fst snd]. intros [Hin|Hm]%IH; [by left; right|].
    destruct (decide (t = t0)) as [->|Hne].
    - rewrite lookup_insert_eq in Hm. injection Hm as ->. by left; left.
    - rewrite lookup_insert_ne in Hm by done. by right. }
  split.
  - intros t l [Hin|Hm]%Hsound; [done|]. by rewrite lookup_empty in Hm.
  - intros Hnodup.
    assert (Hinv : forall l t,
              (l, t) ∈ lang2target <-> target2lang lang2target !! t = Some l).
    { intros l t. unfold target2lang. rewrite (target2lang_foldl _ _ _ _ Hnodup).
      rewrite lookup_empty. split; [by left|]. by intros [?|[_ ?]]. }
    split; [exact Hinv|].
    intros targets. unfold langs_of_targets. rewrite mapM_is_Some.
    apply Forall_iff. intros t. simpl. split.
    + intros [l Hl]. apply Hinv in Hl. apply list_elem_of_fmap. by exists (l, t).
    + intros ([l t'] & -> & Hin)%list_elem_of_fmap. exists l. by apply Hinv.
Qed.

End LabelsOfTargets.

(** ** More runs on concrete inputs *)

Section MoreRuns.
Import Reference.

(** A run that returns is equal to the value and the world its result
    holds; that it returns is checked by evaluation. *)
Lemma returns_pair {A B} (X : option (A * B)) (d : A * B) :
  match X with Some _ => true | None => false end = true ->
  X = Some ((default d X).1, (default d X).2).
Proof. destruct X as [[a b]|]; [done|discriminate]. Qed.

Lemma random_filter_keeps_length_witness :
  let run := random_filter (map (@of_int Exact) [1; 2; 3]) 2 (world [1; 2] [] []) in
  let res := (default (([], []), world [] [] []) run).1 in
  length res.1 = 3%nat /\ length res.2 = 2%nat.
Proof.
  intros run res.
  pose proof (returns_pair run (([], []), world [] [] []) ltac:(vm_compute; reflexivity))
    as Hrun.
  fold res in Hrun. destruct res as [s' b].
  destruct (proj2 (random_filter_keeps_length _ _ _) _ _ _ Hrun) as (Hs & Hb & _).
  split; [exact Hs|exact Hb].
Defined.

Lemma random_speed_change_fixed_ratio_witness :
  exists ratio : Q,
    Qeq ratio 1
    /\ random_speed_change (map (@of_int Exact) [1; 2; 3]) 16000
         (@of_lit Exact 1) (@of_lit Exact 1) (world [900] [] [])
       = Some ((map (@of_int Exact) [1; 2; 3], Some ratio : @num Exact), world [] [] []).
Proof.
  destruct (random_speed_change_fixed_ratio (R := tape) (map (@of_int Exact) [1; 2; 3]) 16000
              1 (900 # 1000) [] (world [900] [] []))
    as (ratio & Hratio & Hrun & _).
  - lia.
  - reflexivity.
  - reflexivity.
  - exists ratio. split; [exact Hratio|]. rewrite Hrun. vm_compute. reflexivity.
Defined.

Lemma eval_split_traversal_repeats_witness :
  exists out w1 w2,
    traverse_twice (pipeline_from_metadata (rows_of "dev") "dev") (world [] [] [])
    = Some ((out, out, w1), w2).
Proof.
  eexists _, _, _.
  apply (eval_split_traversal_repeats (rows_of "dev") "dev" (world [] [] []));
    [discriminate|reflexivity].
Defined.

Lemma pipeline_from_meta_keeps_every_row_witness :
  let run := traverse_once (Embeddings.pipeline_from_meta copy_rows "train")
               (world seed [] []) in
  map (fun f => meta (base f)) (default ([], world [] [] []) run).1 = copy_rows.
Proof.
  intros run.
  pose proof (returns_pair run ([], world [] [] [])) as Hrun.
  destruct (pipeline_from_meta_keeps_every_row copy_rows "train" (world seed [] []) _ _
              eq_refl (Hrun ltac:(vm_compute; reflexivity))) as (Hmeta & _).
  rewrite Hmeta. vm_compute. reflexivity.
Defined.

Lemma pipeline_from_meta_raises_on_silent_clip_witness :
  traverse_once (Embeddings.pipeline_from_meta (rows_of "dev") "dev") (world seed [] [])
  = None.
Proof.
  apply (pipeline_from_meta_raises_on_silent_clip (rows_of "dev") "dev" (world seed [] [])
           (row "b" "ddd" "dev" false)).
  - discriminate.
  - reflexivity.
  - unfold rows_of. rewrite !elem_of_cons. right. left. reflexivity.
  - reflexivity.
  - vm_compute. reflexivity.
Defined.

Lemma dev_ds_pairs_features_with_targets_witness :
  exists w',
    bind (pipeline_from_metadata (L := lib) (rows_of "dev") "dev") dev_ds (world [] [] [])
    = Some (map (fun r => (logmelspec (extract_one (L := lib) (read_mp3 r)), target r))
              (List.filter (fun r => signal_is_not_empty (read_mp3 (L := lib) r))
                 (rows_of "dev")), w').
Proof.
  destruct (dev_ds_pairs_features_with_targets (rows_of "dev") (world [] [] []) eq_refl)
    as (w' & Hrun & _).
  exists w'. exact Hrun.
Defined.


Lemma train_traversal_keeps_records_witness :
  let w := set_file (split_file "train") (SignalEntries copies) (world seed [] []) in
  exists ds w1,
    pipeline_from_metadata copy_rows "train" (world [] [] []) = Some (ds, w1)
    /\ length (default ([], world [] [] []) (ds w)).1 = 2%nat.
Proof.
  intros w.
  assert (Hfile : files w !! split_file "train" = Some (SignalEntries copies))
    by apply lookup_insert_eq.
  let X := constr:(pipeline_from_metadata copy_rows "train" (world [] [] [])) in
  let v := eval hnf in X in
  match v with
  | Some (?d, ?w') => pose (ds := d); pose (w1 := w')
  end.
  assert (Hbuild : pipeline_from_metadata copy_rows "train" (world [] [] []) = Some (ds, w1))
    by reflexivity.
  assert (Hsome : match ds w with Some _ => true | None => false end = true)
    by (vm_compute; reflexivity).
  pose proof (returns_pair (ds w) ([], world [] [] []) Hsome) as Hrun.
  pose proof (train_traversal_keeps_records copy_rows (world [] [] []) ds w1 copies w _ _
                Hbuild Hfile Hrun) as Hthm.
  destruct Hthm as (Hrecords & _).
  exists ds, w1. split; [exact Hbuild|].
  apply Forall2_length in Hrecords. rewrite <- Hrecords. reflexivity.
Defined.

Lemma target2lang_inverts_witness :
  target2lang [("et", 0); ("mn", 1); ("ta", 2); ("tr", 3)] !! 2 = Some "ta"
  /\ is_Some (langs_of_targets [("et", 0); ("mn", 1); ("ta", 2); ("tr", 3)] [2; 0]).
Proof.
  destruct (proj2 (target2lang_inverts [("et", 0); ("mn", 1); ("ta", 2); ("tr", 3)]))
    as (Hinv & Hlangs).
  - apply (bool_decide_unpack _). vm_compute. exact I.
  - split.
    + apply Hinv. rewrite !elem_of_cons. right. right. left. reflexivity.
    + apply Hlangs. repeat constructor; apply list_elem_of_In; simpl; auto.
Defined.

End MoreRuns.

Section VectorRuns.
Import Reference ReferenceVectors EmbeddingVectors.

Lemma ds_to_embeddings_one_row_per_utterance_witness :
  let run := ds_to_embeddings (from_tensor_slices (map extract_one copies)) (world [] [] []) in
  let res := default ([], world [] [] []) run in
  map fst res.1 = ["a"; "c"].
Proof.
  intros run res.
  pose proof (returns_pair run ([], world [] [] []) ltac:(vm_compute; reflexivity)) as Hrun.
  change (run = Some (res.1, res.2)) in Hrun.
  destruct (proj1 (ds_to_embeddings_one_row_per_utterance _ _) _ _ Hrun)
    as (fs & w1 & Hds & Ht & _).
  injection Hds as <- <-. rewrite Ht, map_map. vm_compute. reflexivity.
Defined.


Lemma random_sample_keeps_pairs_witness :
  exists (idx : list nat) g' X' y',
    random_sample [10; 20; 30; 40] ["a"; "b"; "c"; "d"] (Some (1 # 2) : @num Exact)
      (world [1] [] [])
    = Some ((X', y'), set_np_rng g' (world [1] [] []))
    /\ length X' = 2%nat /\ NoDup idx.
Proof.
  assert (Hq0 : (0 <= 1 # 2)%Q) by (unfold Qle; simpl; lia).
  assert (Hq1 : (1 # 2 <= 1)%Q) by (unfold Qle; simpl; lia).
  pose proof (proj1 (random_sample_keeps_pairs (R := tape) [10; 20; 30; 40]
                       ["a"; "b"; "c"; "d"] (1 # 2) (world [1] [] []) Hq0)
                eq_refl Hq1) as Hthm.
  destruct Hthm as (idx & g' & X' & y' & Hrun & _ & HlX & _ & Hnodup & _).
  exists idx, g', X', y'. split; [exact Hrun|]. split; [exact HlX|exact Hnodup].
Defined.

End VectorRuns.

(** ** Stages that draw nothing do not depend on the schedule *)

Section ScheduleIndependence.
Context {N : Numerics} {R : RandomSource N} {L : AudioLib N}.

Lemma index_of_perm (order : list nat) n j :
  order ≡ₚ seq 0 n -> (j < n)%nat ->
  exists k, index_of j order = Some k /\ order !! k = Some j.
Proof.
  intros Hperm Hj.
  assert (Hin : j ∈ order) by (rewrite Hperm; apply elem_of_seq; lia).
  destruct (list_find_elem_of (fun i => i = j) order j Hin eq_refl) as [[k x] Hfind].
  exists k. unfold index_of. rewrite Hfind. split; [done|].
  apply list_find_Some in Hfind as (Hk & -> & _). done.
Qed.

Lemma omap_lookup_valid {A} (xs : list A) (order : list nat) :
  Forall (fun i => (i < length xs)%nat) order ->
  Forall2 (fun i x => xs !! i = Some x) order (omap (fun i => xs !! i) order).
Proof.
  induction 1 as [|i order Hi _ IH]; [constructor|].
  cbn [omap list_omap]. destruct (lookup_lt_is_Some_2 xs i Hi) as [x Hx].
  rewrite Hx. by constructor.
Qed.

Lemma deliver_in_order_perm {B} (order : list nat) (ys zs : list B) :
  order ≡ₚ seq 0 (length zs) ->
  Forall2 (fun i y => zs !! i = Some y) order ys ->
  deliver_in_order order ys = zs.
Proof.
  intros Hperm Hys. unfold deliver_in_order.
  assert (Hlen : length ys = length zs).
  { rewrite <- (Forall2_length _ _ _ Hys), Hperm. apply length_seq. }
  rewrite Hlen.
  rewrite (list_omap_ext _ (fun i => zs !! i) _ (seq 0 (length zs))).
  - rewrite omap_lookup_seq by lia. by rewrite drop_0, firstn_all.
  - apply Forall_Forall2_diag, Forall_forall.
    intros j [_ Hj]%elem_of_seq.
    destruct (index_of_perm order (length zs) j Hperm) as (k & -> & Hk); [lia|].
    simpl. destruct (Forall2_lookup_l _ _ _ _ _ Hys Hk) as (y & -> & Hy). done.
Qed.

(** X13.  The order in which a parallel [map] invokes [read_mp3] cannot be
    seen in the data: for every schedule (a permutation of the
    positions), a first traversal of the cached part of
    [pipeline_from_metadata] yields, and writes to the cache, the same
    conditioned non-empty signals in the same metadata order as the
    sequential traversal.  Only the order of the log, the record of the
    invocations, follows the schedule. *)
Theorem read_mp3_schedule_independent (order : list nat) rows p (w : World) :
  order ≡ₚ seq 0 (length rows) ->
  files w !! p = None ->
  cached_signals_scheduled order rows p w
  = Some (conditioned rows,
          set_file p (SignalEntries (conditioned rows))
            (append_log (events "read_mp3" (omap (fun i => rows !! i) order)) w))
  /\ fst <$> cached_signals_scheduled order rows p w = fst <$> cached_signals rows p w
  /\ (fun r => files r.2) <$> cached_signals_scheduled order rows p w
     = (fun r => files r.2) <$> cached_signals rows p w.
Proof.
  intros Hperm Hmiss.
  assert (Hrun : cached_signals_scheduled order rows p w
                 = Some (conditioned rows,
                         set_file p (SignalEntries (conditioned rows))
                           (append_log (events "read_mp3" (omap (fun i => rows !! i) order)) w))).
  { unfold cached_signals_scheduled, ds_prefetch, ds_cache. rewrite Hmiss.
    unfold ds_filter, ds_map_scheduled, from_tensor_slices, metadata_to_dataset_input.
    unfold bind at 1 2 3. unfold ret at 1. unfold bind at 1.
    rewrite (for_each_pure "read_mp3" read_mp3). unfold ret at 1.
    rewrite (deliver_in_order_perm order _ (map read_mp3 rows)).
    - done.
    - by rewrite length_map.
    - apply Forall2_fmap_r.
      eapply Forall2_impl; [apply omap_lookup_valid|].
      + rewrite Hperm. apply Forall_seq. intros; lia.
      + intros i x Hx. simpl. by rewrite list_lookup_fmap, Hx. }
  split; [exact Hrun|].
  rewrite Hrun, cached_signals_traversal, Hmiss. done.
Qed.

End ScheduleIndependence.

Section ScheduledRuns.
Import Reference.

Lemma read_mp3_schedule_independent_witness :
  fst <$> cached_signals_scheduled [2; 0; 1]%nat (rows_of "dev") (split_file "dev")
            (world [] [] [])
  = fst <$> cached_signals (rows_of "dev") (split_file "dev") (world [] [] []).
Proof.
  assert (Hperm : [2; 0; 1]%nat ≡ₚ seq 0 (length (rows_of "dev"))).
  { simpl. etrans; [apply perm_swap|]. apply perm_skip, perm_swap. }
  pose proof (read_mp3_schedule_independent [2; 0; 1]%nat (rows_of "dev") (split_file "dev")
                (world [] [] []) Hperm (lookup_empty _)) as Hthm.
  destruct Hthm as (_ & Hsame & _). exact Hsame.
Defined.

End ScheduledRuns.
